(** * Maritime_AI: the chat backend (server.js), embedded and verified

    The development follows the source top-down:
    - JavaScript strings, as sequences of UTF-16 code units;
    - JavaScript numbers, as IEEE-754 binary64 values (Rocq's primitive
      floats), with the handful of facts about them the proofs use;
    - JavaScript values as [JSON.parse] and property reads produce them, and
      the coercions the code triggers ([ToString], [ToNumber], [+], ...);
    - the two regular expressions of the intent router;
    - the network: every [fetch] is answered by the services, whose
      behaviour is a parameter of every definition and theorem;
    - the helpers [geocodePlace], [greatCircleNm], [tryMarine],
      [getMarineWeatherNear], [getLandWeather] and the [POST /chat] handler;
    - the upload endpoint, and the page of the frontend (App.jsx) as far as
      it talks to the backend: [apiFetch], [speak], [send], [handleFile];
    - the properties of the specification, and further properties of the
      code.

    Not modelled: the console ([console.warn], [console.error]), which no
    caller of the HTTP interface observes, the health endpoint, and of the
    page its rendering and the speech recognition. *)

From Stdlib Require Import ZArith NArith QArith String Ascii Bool Lia Floats.
From Stdlib Require Import List DecimalString.
Import ListNotations.
Close Scope Q_scope.

Set Warnings "-inexact-float,-register-all".

(* ================================================================== *)
(** * 1. Strings: UTF-16 code units *)
(* ================================================================== *)

(** A JavaScript string is a sequence of 16-bit code units. *)
Definition jstring := list N.

(** Source literals are written in UTF-8 in this file and decoded here to
    code points, then encoded as UTF-16, as the JavaScript engine does with
    the source text of server.js. *)
Fixpoint utf8_points (bs : list N) : list N :=
  match bs with
  | [] => []
  | b0 :: r0 =>
      if (b0 <? 128)%N then b0 :: utf8_points r0
      else if (b0 <? 224)%N then
        match r0 with
        | b1 :: r1 => ((b0 mod 32) * 64 + b1 mod 64)%N :: utf8_points r1
        | _ => []
        end
      else if (b0 <? 240)%N then
        match r0 with
        | b1 :: b2 :: r2 =>
            ((b0 mod 16) * 4096 + (b1 mod 64) * 64 + b2 mod 64)%N
              :: utf8_points r2
        | _ => []
        end
      else
        match r0 with
        | b1 :: b2 :: b3 :: r3 =>
            ((b0 mod 8) * 262144 + (b1 mod 64) * 4096
             + (b2 mod 64) * 64 + b3 mod 64)%N :: utf8_points r3
        | _ => []
        end
  end.

Definition utf16_units (cp : N) : list N :=
  if (cp <? 65536)%N then [cp]
  else [(55296 + (cp - 65536) / 1024)%N; (56320 + (cp - 65536) mod 1024)%N].

Definition js (s : string) : jstring :=
  flat_map utf16_units
    (utf8_points (map N_of_ascii (list_ascii_of_string s))).

Arguments js : simpl never.

(** The double quote, which the replies put around place names. *)
Definition dquote : jstring := [34%N].

(** ECMAScript WhiteSpace and LineTerminator code points: what [\s] matches
    and what [String.prototype.trim] strips. *)
Definition isWhiteSpace (c : N) : bool :=
  ((9 <=? c) && (c <=? 13) || (c =? 32) || (c =? 160) || (c =? 5760)
   || (8192 <=? c) && (c <=? 8202) || (c =? 8232) || (c =? 8233)
   || (c =? 8239) || (c =? 8287) || (c =? 12288) || (c =? 65279))%N.

Fixpoint trimStart (s : jstring) : jstring :=
  match s with
  | c :: s' => if isWhiteSpace c then trimStart s' else s
  | [] => []
  end.

Definition trimEnd (s : jstring) : jstring := rev (trimStart (rev s)).

(** [String.prototype.trim]. *)
Definition trim (s : jstring) : jstring := trimEnd (trimStart s).

(** [s] has no lone surrogate: the strings [encodeURIComponent] accepts. *)
Fixpoint wellFormed (s : jstring) : bool :=
  match s with
  | [] => true
  | c :: s' =>
      if ((55296 <=? c) && (c <=? 56319))%N then
        match s' with
        | d :: s'' => ((56320 <=? d) && (d <=? 57343))%N && wellFormed s''
        | [] => false
        end
      else if ((56320 <=? c) && (c <=? 57343))%N then false
      else wellFormed s'
  end.

(** [p] is a suffix of [s]: [s.endsWith(p)]. *)
Definition endsWith (s p : jstring) : Prop := exists pre, s = pre ++ p.

(** [p] occurs in [s]: [s.includes(p)]. *)
Definition includes (s p : jstring) : Prop :=
  exists pre post, s = pre ++ p ++ post.


(* ================================================================== *)
(** * 2. Numbers: IEEE-754 binary64 *)
(* ================================================================== *)

(** A JavaScript Number is a binary64 value; [+], [-], [*], [/] and
    [Math.sqrt] are the correctly rounded IEEE operations, which is what
    Rocq's primitive floats compute.  Equality of floats below is Leibniz
    equality: the same value, with [-0] and [+0] distinct and NaN one value
    ([Object.is], not [===]). *)

Open Scope float_scope.

(** [Math.PI]. *)
Definition Math_PI : float := 0x1.921fb54442d18p+1.

(** [Math.min] on two numbers. *)
Definition Math_min (a b : float) : float :=
  if is_nan a || is_nan b then nan
  else if a <? b then a
  else if b <? a then b
  else if get_sign a then a else b.

(** The integer nearest to [(-1)^s * m * 2^e], ties towards +infinity, for
    [e < 0]: [floor (x + 1/2)] in exact arithmetic. *)
Definition round_half_up (s : bool) (m : positive) (e : Z) : Z :=
  let d := (2 ^ (- e))%Z in
  ((2 * cond_Zopp s (Zpos m) + d) / (2 * d))%Z.

(** An integer of magnitude below 2^63 as a float (exact below 2^53). *)
Definition float_of_Z (n : Z) : float :=
  if (n <? 0)%Z then - of_uint63 (Uint63.of_Z (- n))
  else of_uint63 (Uint63.of_Z n).

(** [Math.round]: NaN, the infinities and the zeros are returned as they
    are, and so is every number whose exponent shows it integral; a result
    that is zero keeps the sign of the argument. *)
Definition Math_round (x : float) : float :=
  match Prim2SF x with
  | S754_finite s m e =>
      if (0 <=? e)%Z then x
      else
        let n := round_half_up s m e in
        if (n =? 0)%Z then (if s then -0 else 0) else float_of_Z n
  | _ => x
  end.

(** The length of a string or array as a Number. *)
Definition float_of_nat (n : nat) : float := float_of_Z (Z.of_nat n).

(** What the language leaves to the engine: ECMA-262 calls [Math.sin],
    [Math.cos], [Math.asin] and [**] implementation-approximated; the
    conversions between numbers and strings are fixed by the standard but are
    no part of this program.  They are parameters of the model. *)
Record runtime := {
  Math_sin : float -> float;
  Math_cos : float -> float;
  Math_asin : float -> float;
  exponentiate : float -> float -> float;          (* [x ** y] *)
  NumberToString : float -> jstring;               (* [`${x}`] *)
  toFixed : float -> nat -> jstring;               (* [x.toFixed(d)] *)
  StringToNumber : jstring -> float                (* [Number(s)] *)
}.

(* ================================================================== *)
(** * 3. Values and coercions *)
(* ================================================================== *)

(** What [JSON.parse] returns, plus [undefined], which reading a missing
    property yields.  An object is the list of its own properties, each
    name bound once; a read takes the first binding of a name. *)
Inductive value :=
| Undefined
| Null
| Bool (b : bool)
| Num (x : float)
| Str (s : jstring)
| Arr (items : list value)
| Obj (props : list (jstring * value)).

Inductive exn :=
| FetchRejected      (* the promise of [fetch] rejects: no answer *)
| BodyRejected       (* the promise of [r.json()] or [r.text()] rejects *)
| TypeError
| URIError.

(** A computation either returns or throws. *)
Inductive outcome (A : Type) :=
| Ret (a : A)
| Throw (e : exn).
Arguments Ret {A} a.
Arguments Throw {A} e.

Definition obind {A B} (o : outcome A) (k : A -> outcome B) : outcome B :=
  match o with
  | Ret a => k a
  | Throw e => Throw e
  end.

Declare Scope js_scope.
Delimit Scope js_scope with js.
Notation "'let*' x ':=' o 'in' k" := (obind o (fun x => k))
  (at level 10, x name, o at level 100, k at level 200) : js_scope.
Open Scope js_scope.

Fixpoint jstring_eqb (a b : jstring) : bool :=
  match a, b with
  | [], [] => true
  | x :: a', y :: b' => (x =? y)%N && jstring_eqb a' b'
  | _, _ => false
  end.

Fixpoint lookup (k : jstring) (props : list (jstring * value)) : value :=
  match props with
  | [] => Undefined
  | (k', v) :: rest => if jstring_eqb k k' then v else lookup k rest
  end.

Definition hasOwn (k : jstring) (props : list (jstring * value)) : bool :=
  existsb (fun kv => jstring_eqb k (fst kv)) props.

(** [v == null]. *)
Definition nullish (v : value) : bool :=
  match v with
  | Undefined | Null => true
  | _ => false
  end.

(** ToBoolean. *)
Definition truthy (v : value) : bool :=
  match v with
  | Undefined | Null => false
  | Bool b => b
  | Num x => negb (is_nan x || is_zero x)
  | Str s => negb (Nat.eqb (length s) 0)
  | Arr _ | Obj _ => true
  end.

(** [v.k] for a [v] that is not nullish and a name [k] that the built-in
    prototypes do not define (every name this program reads: message,
    results, name, country, latitude, longitude, hourly, time, wave_height,
    wind_speed, wind_wave_direction, current_weather, temperature,
    windspeed, winddirection), and [v.length]. *)
Definition get (v : value) (k : jstring) : value :=
  match v with
  | Obj props => lookup k props
  | Arr items =>
      if jstring_eqb k (js "length") then Num (float_of_nat (length items))
      else Undefined
  | Str s =>
      if jstring_eqb k (js "length") then Num (float_of_nat (length s))
      else Undefined
  | _ => Undefined
  end.

(** [v?.k]. *)
Definition optGet (v : value) (k : jstring) : value :=
  if nullish v then Undefined else get v k.

(** [v[0]] for a [v] that is not nullish. *)
Definition index0 (v : value) : value :=
  match v with
  | Arr (x :: _) => x
  | Str (c :: _) => Str [c]
  | Obj props => lookup (js "0") props
  | _ => Undefined
  end.

(** [v?.[0]]. *)
Definition optIndex0 (v : value) : value :=
  if nullish v then Undefined else index0 v.

(** [v ?? d]. *)
Definition orElse (v d : value) : value := if nullish v then d else v.

(** [v || d]. *)
Definition orDefault (v d : value) : value := if truthy v then v else d.

Section Coercions.
Variable rt : runtime.

Fixpoint join (sep : jstring) (parts : list jstring) : jstring :=
  match parts with
  | [] => []
  | [p] => p
  | p :: rest => p ++ sep ++ join sep rest
  end.

Fixpoint sequence {A} (l : list (outcome A)) : outcome (list A) :=
  match l with
  | [] => Ret []
  | o :: rest =>
      let* a := o in
      let* r := sequence rest in
      Ret (a :: r)
  end.

(** ToString.  An array is joined with commas, [null] and [undefined]
    items as the empty string.  A plain object is ["[object Object]"],
    unless it has an own property [toString]: that (never callable) value
    shadows [Object.prototype.toString], [valueOf] returns the object
    itself, and the conversion throws a TypeError. *)
Fixpoint ToString (v : value) : outcome jstring :=
  match v with
  | Undefined => Ret (js "undefined")
  | Null => Ret (js "null")
  | Bool true => Ret (js "true")
  | Bool false => Ret (js "false")
  | Num x => Ret (NumberToString rt x)
  | Str s => Ret s
  | Arr items =>
      let* parts :=
        sequence
          (map (fun i => if nullish i then Ret [] else ToString i) items) in
      Ret (join (js ",") parts)
  | Obj props =>
      if hasOwn (js "toString") props then Throw TypeError
      else Ret (js "[object Object]")
  end.

(** ToPrimitive, for [+] and for ToNumber: a primitive is itself, an
    array or object is its string. *)
Definition ToPrimitive (v : value) : outcome value :=
  match v with
  | Arr _ | Obj _ => let* s := ToString v in Ret (Str s)
  | _ => Ret v
  end.

(** ToNumber. *)
Definition ToNumber (v : value) : outcome float :=
  let* p := ToPrimitive v in
  match p with
  | Undefined => Ret nan
  | Null => Ret 0
  | Bool true => Ret 1
  | Bool false => Ret 0
  | Num x => Ret x
  | Str s => Ret (StringToNumber rt s)
  | _ => Throw TypeError
  end.

(** [v + d] for a number [d]: concatenation when [v] is, or converts to, a
    string; the sum of numbers otherwise. *)
Definition plus (v : value) (d : float) : outcome value :=
  let* p := ToPrimitive v in
  match p with
  | Str s => Ret (Str (s ++ NumberToString rt d))
  | _ => let* x := ToNumber p in Ret (Num (x + d))
  end.

(** [v.toFixed(d)]: only numbers have the method. *)
Definition callToFixed (v : value) (d : nat) : outcome jstring :=
  match v with
  | Num x => Ret (toFixed rt x d)
  | _ => Throw TypeError
  end.

(** [v.trim()]: only strings have the method. *)
Definition callTrim (v : value) : outcome jstring :=
  match v with
  | Str s => Ret (trim s)
  | _ => Throw TypeError
  end.
End Coercions.

(* ================================================================== *)
(** * 4. The regular expressions of the intent router *)
(* ================================================================== *)

(** The fragment of ECMAScript regular expressions the two patterns use,
    with the backtracking semantics of the standard: a continuation decides
    whether the rest of the pattern matches, and a quantifier tries its
    choices in priority order (longest first when greedy, shortest first
    when lazy). *)
Inductive regex :=
| Unit (p : N -> bool)            (* one code unit satisfying [p] *)
| Seq (r1 r2 : regex)
| Alt (r1 r2 : regex)
| Plus (p : N -> bool)            (* [c+], greedy *)
| PlusLazy (p : N -> bool)        (* [c+?] *)
| Group (r : regex)               (* a capturing group *)
| Eoi.                            (* [$], without the m flag *)

Section Matcher.
Variable R : Type.
Variable p : N -> bool.

Fixpoint starGreedy (s : jstring) (k : jstring -> option R) : option R :=
  match s with
  | c :: s' =>
      if p c then
        match starGreedy s' k with
        | Some r => Some r
        | None => k s
        end
      else k s
  | [] => k s
  end.

Fixpoint starLazy (s : jstring) (k : jstring -> option R) : option R :=
  match k s with
  | Some r => Some r
  | None =>
      match s with
      | c :: s' => if p c then starLazy s' k else None
      | [] => None
      end
  end.

Definition plusWith (star : jstring -> (jstring -> option R) -> option R)
    (s : jstring) (k : jstring -> option R) : option R :=
  match s with
  | c :: s' => if p c then star s' k else None
  | [] => None
  end.
End Matcher.

(** The captures are collected in the order their groups close, which for
    groups that follow one another (as in both patterns) is their number. *)
Fixpoint rmatch (r : regex) (s : jstring) (caps : list jstring)
    (k : jstring -> list jstring -> option (list jstring))
    : option (list jstring) :=
  match r with
  | Unit p =>
      match s with
      | c :: s' => if p c then k s' caps else None
      | [] => None
      end
  | Seq r1 r2 => rmatch r1 s caps (fun s1 c1 => rmatch r2 s1 c1 k)
  | Alt r1 r2 =>
      match rmatch r1 s caps k with
      | Some c => Some c
      | None => rmatch r2 s caps k
      end
  | Plus p => plusWith _ p (starGreedy _ p) s (fun s' => k s' caps)
  | PlusLazy p => plusWith _ p (starLazy _ p) s (fun s' => k s' caps)
  | Group r1 =>
      rmatch r1 s caps
        (fun s1 c1 => k s1 (c1 ++ [firstn (length s - length s1) s]))
  | Eoi =>
      match s with
      | [] => k s caps
      | _ => None
      end
  end.

(** [s.match(r)] for a pattern without the g flag: the captures of the
    leftmost match, or [None] for [null]. *)
Fixpoint exec (r : regex) (s : jstring) : option (list jstring) :=
  match rmatch r s [] (fun _ c => Some c) with
  | Some c => Some c
  | None =>
      match s with
      | [] => None
      | _ :: s' => exec r s'
      end
  end.

(** With the i flag a letter of the pattern matches both of its cases, and
    nothing else: Canonicalize never maps a code unit above 127 to one
    below. *)
Definition isLetter (c : N) : bool :=
  ((65 <=? c) && (c <=? 90) || (97 <=? c) && (c <=? 122))%N.

Definition sameLetter (a c : N) : bool :=
  if isLetter a then
    ((c =? a) || (c =? (if a <? 97 then a + 32 else a - 32)))%N
  else (c =? a)%N.

Fixpoint literal (cs : jstring) : regex :=
  match cs with
  | [] => Seq Eoi Eoi  (* unused: the literals below are not empty *)
  | [c] => Unit (sameLetter c)
  | c :: rest => Seq (Unit (sameLetter c)) (literal rest)
  end.

(** [[A-Za-z\s]]. *)
Definition placeChar (c : N) : bool := isLetter c || isWhiteSpace c.

(** [/distance\s+([A-Za-z\s]+?)\s+(?:to|->)\s+([A-Za-z\s]+)$/i] *)
Definition distancePattern : regex :=
  Seq (literal (js "distance"))
 (Seq (Plus isWhiteSpace)
 (Seq (Group (PlusLazy placeChar))
 (Seq (Plus isWhiteSpace)
 (Seq (Alt (literal (js "to")) (literal (js "->")))
 (Seq (Plus isWhiteSpace)
 (Seq (Group (Plus placeChar))
      Eoi)))))).

(** [/weather\s+(?:at|in)\s+([A-Za-z\s]+)$/i] *)
Definition weatherPattern : regex :=
  Seq (literal (js "weather"))
 (Seq (Plus isWhiteSpace)
 (Seq (Alt (literal (js "at")) (literal (js "in")))
 (Seq (Plus isWhiteSpace)
 (Seq (Group (Plus placeChar))
      Eoi)))).

(* ================================================================== *)
(** * 5. The network *)
(* ================================================================== *)

(** A request to one of the three services, by the parameters its URL is
    built from: the place name (before [encodeURIComponent]), or latitude and
    longitude as the template literal renders them. *)
Inductive request :=
| GeocodeReq (name : jstring)
| MarineReq (latitude longitude : jstring)
| LandReq (latitude longitude : jstring).

(** What the program reads of a response: the status, and what the promises
    of [r.text()] and [r.json()] settle to ([None]: rejected, as when the
    body cannot be read or is not JSON). *)
Record response := {
  status : Z;
  text : option jstring;
  json : option value
}.

(** [r.ok]. *)
Definition ok (r : response) : bool :=
  ((200 <=? status r) && (status r <=? 299))%Z.

Inductive answer :=
| NoAnswer                  (* the promise of [fetch] rejects *)
| Answer (r : response).

(** The behaviour of the services: the answer to a request may depend on
    every request made before it. *)
Definition services := list request -> request -> answer.

(** An asynchronous computation, run to completion: from the requests made
    so far to its result and the requests made by the end. *)
Definition M (A : Type) := list request -> outcome A * list request.

Definition ret {A} (a : A) : M A := fun h => (Ret a, h).

Definition throw {A} (e : exn) : M A := fun h => (Throw e, h).

Definition bind {A B} (m : M A) (k : A -> M B) : M B :=
  fun h =>
    match m h with
    | (Ret a, h') => k a h'
    | (Throw e, h') => (Throw e, h')
    end.

Notation "x <- m ;; k" := (bind m (fun x => k))
  (at level 61, m at next level, right associativity) : js_scope.

(** A computation that touches no service. *)
Definition lift {A} (o : outcome A) : M A := fun h => (o, h).

(** [try { m } catch (e) { handler e }]. *)
Definition tryCatch {A} (m : M A) (handler : exn -> M A) : M A :=
  fun h =>
    match m h with
    | (Ret a, h') => (Ret a, h')
    | (Throw e, h') => handler e h'
    end.

(** [await Promise.all([m1, m2])]: both computations are started, so both
    make their requests, the first one first; the result is rejected when
    either is. *)
Definition all2 {A B} (m1 : M A) (m2 : M B) : M (A * B) :=
  fun h =>
    let (o1, h1) := m1 h in
    let (o2, h2) := m2 h1 in
    (match o1, o2 with
     | Ret a, Ret b => Ret (a, b)
     | Throw e, _ => Throw e
     | _, Throw e => Throw e
     end, h2).

(** [for (const x of xs) { r = await body(x); if (r) return r; }] followed
    by [return null]. *)
Fixpoint forOf {A B} (xs : list A) (body : A -> M (option B)) : M (option B) :=
  match xs with
  | [] => ret None
  | x :: rest =>
      r <- body x ;;
      match r with
      | Some b => ret (Some b)
      | None => forOf rest body
      end
  end.

Section Server.
Variable rt : runtime.
Variable net : services.

(** [await fetch(url)]. *)
Definition fetch (q : request) : M response :=
  fun h =>
    match net h q with
    | NoAnswer => (Throw FetchRejected, h ++ [q])
    | Answer r => (Ret r, h ++ [q])
    end.

(** [await r.json()]. *)
Definition jsonOf (r : response) : M value :=
  match json r with
  | Some v => ret v
  | None => throw BodyRejected
  end.

(** [await r.text()]. *)
Definition textOf (r : response) : M jstring :=
  match text r with
  | Some t => ret t
  | None => throw BodyRejected
  end.

(** [await r.text().catch(() => "")]: the body for the console, or the
    empty string when it cannot be read. *)
Definition textOrEmpty (r : response) : M jstring :=
  tryCatch (textOf r) (fun _ => ret []).

(* ................................................................ *)
(** ** Geocoding *)

Record place := {
  name : value;
  country : value;
  lat : value;
  lon : value
}.

(** [geocodePlace(name)].  [encodeURIComponent] throws a URIError on a
    lone surrogate. *)
Definition geocodePlace (placeName : jstring) : M (option place) :=
  if negb (wellFormed placeName) then throw URIError
  else
    r <- fetch (GeocodeReq placeName) ;;
    if negb (ok r) then ret None
    else
      data <- jsonOf r ;;
      let first := optIndex0 (optGet data (js "results")) in
      if negb (truthy first) then ret None
      else
        ret (Some {| name := get first (js "name");
                     country := orDefault (get first (js "country")) (Str []);
                     lat := get first (js "latitude");
                     lon := get first (js "longitude") |}).

(* ................................................................ *)
(** ** Distance *)

(** [toRadians(d)]: the product converts [d] to a number. *)
Definition toRadians (d : value) : outcome float :=
  let* x := ToNumber rt d in
  Ret (x * Math_PI / 180).

(** [b - a]. *)
Definition minus (b a : value) : outcome value :=
  let* y := ToNumber rt b in
  let* x := ToNumber rt a in
  Ret (Num (y - x)).

(** [greatCircleNm(a, b)]: haversine distance in nautical miles. *)
Definition greatCircleNm (a b : place) : outcome float :=
  let R_km := 6371 in
  let* dlat := minus (lat b) (lat a) in
  let* dLat := toRadians dlat in
  let* dlon := minus (lon b) (lon a) in
  let* dLon := toRadians dlon in
  let* lat1 := toRadians (lat a) in
  let* lat2 := toRadians (lat b) in
  let h :=
    exponentiate rt (Math_sin rt (dLat / 2)) 2
    + Math_cos rt lat1 * Math_cos rt lat2
      * exponentiate rt (Math_sin rt (dLon / 2)) 2 in
  let d_km := 2 * R_km * Math_asin rt (Math_min 1 (sqrt h)) in
  let d_nm := d_km * 0.539957 in
  Ret d_nm.

(* ................................................................ *)
(** ** Marine weather, with the search around the point *)

Record reading := {
  time : value;
  wave : value;
  wind : value;
  waveDir : value;
  usedLat : value;
  usedLon : value
}.

(** [tryMarine(lat, lon)].  On a status that is not a success the body is
    read for the console only. *)
Definition tryMarine (lat lon : value) : M (option reading) :=
  slat <- lift (ToString rt lat) ;;
  slon <- lift (ToString rt lon) ;;
  r <- fetch (MarineReq slat slon) ;;
  if negb (ok r) then
    _ <- textOrEmpty r ;;
    ret None
  else
    data <- jsonOf r ;;
    let h := optGet data (js "hourly") in
    if negb (truthy h)
       || negb (truthy (optGet (get h (js "time")) (js "length")))
    then ret None
    else
      ret (Some {| time := index0 (get h (js "time"));
                   wave := orElse (optIndex0 (get h (js "wave_height"))) Null;
                   wind := orElse (optIndex0 (get h (js "wind_speed"))) Null;
                   waveDir :=
                     orElse (optIndex0 (get h (js "wind_wave_direction")))
                       Null;
                   usedLat := lat;
                   usedLon := lon |}).

Definition offsets : list float :=
  [0; 0.25; -0.25; 0.5; -0.5; 0.75; -0.75; 1; -1].

(** [getMarineWeatherNear(lat, lon)]: the exact point first, then small
    offsets around it. *)
Definition getMarineWeatherNear (lat lon : value) : M (option reading) :=
  forOf offsets (fun dlat =>
    forOf offsets (fun dlon =>
      la <- lift (plus rt lat dlat) ;;
      lo <- lift (plus rt lon dlon) ;;
      tryMarine la lo)).

(* ................................................................ *)
(** ** Land weather *)

(** [getLandWeather(lat, lon)]: the [current_weather] of the answer, or
    [null]. *)
Definition getLandWeather (lat lon : value) : M value :=
  slat <- lift (ToString rt lat) ;;
  slon <- lift (ToString rt lon) ;;
  r <- fetch (LandReq slat slon) ;;
  if negb (ok r) then
    _ <- textOrEmpty r ;;
    ret Null
  else
    data <- jsonOf r ;;
    ret (orDefault (optGet data (js "current_weather")) Null).
End Server.

(* ================================================================== *)
(** * 6. The chat endpoint *)
(* ================================================================== *)

Definition nl : jstring := [10%N].

(** The storm-warning line, and the alert
    ["\n⚠️ Storm warning: High waves expected!"], which starts it on a new
    line of the reply. *)
Definition stormLine : jstring := js "⚠️ Storm warning: High waves expected!".

Definition stormWarning : jstring := nl ++ stormLine.

(** The replies of the two [catch] blocks. *)
Definition distanceError : jstring :=
  js "⚠️ Distance service error. Please try again.".

Definition weatherError : jstring :=
  js "⚠️ Error fetching weather. Try again later.".

Section Chat.
Variable rt : runtime.
Variable net : services.

(** [`${v}`]. *)
Definition show (v : value) : outcome jstring := ToString rt v.

(** [v != null ? `${v}unit` : "n/a"]. *)
Definition showOrNa (v : value) (unit : jstring) : outcome jstring :=
  if negb (nullish v) then
    let* s := show v in Ret (s ++ unit)
  else Ret (js "n/a").

(* ................................................................ *)
(** ** The distance flow: the body of [if (distMatch)] *)

(** ["(lat, lon)"] with [d] decimals. *)
Definition coordinates (la lo : value) (d : nat) : outcome jstring :=
  let* a := callToFixed rt la d in
  let* b := callToFixed rt lo d in
  Ret (js "(" ++ a ++ js ", " ++ b ++ js ")").

(** ["name, country (lat, lon)"], as both lines of the distance reply
    show a place. *)
Definition placeLine (p : place) : outcome jstring :=
  let* n := show (name p) in
  let* c := show (country p) in
  let* xy := coordinates (lat p) (lon p) 3 in
  Ret (n ++ js ", " ++ c ++ js " " ++ xy).

Definition distanceReply (from to : place) : outcome jstring :=
  let* nm := greatCircleNm rt from to in
  let nmRounded := Math_round nm in
  let* l1 := placeLine from in
  let* l2 := placeLine to in
  Ret (js "📏 Great-circle distance:" ++ nl
       ++ js "• " ++ l1 ++ nl
       ++ js "→ " ++ l2 ++ nl
       ++ js "= **" ++ NumberToString rt nmRounded
       ++ js " nautical miles** (approx., rhumb lines not included).").

Definition notFoundDistance (placeName : jstring) : jstring :=
  js "I couldn't find " ++ dquote ++ placeName ++ dquote
  ++ js ". Try another port/city name.".

Definition distanceFlow (fromName toName : jstring) : M jstring :=
  tryCatch
    (ft <- all2 (geocodePlace net fromName) (geocodePlace net toName) ;;
     match ft with
     | (None, _) => ret (notFoundDistance fromName)
     | (Some _, None) => ret (notFoundDistance toName)
     | (Some from, Some to) => lift (distanceReply from to)
     end)
    (fun _ => ret distanceError).

(* ................................................................ *)
(** ** The weather flow: the body of [if (weatherMatch)] *)

(** [marine && (marine.wave != null || marine.wind != null)], for a
    reading the resolver returned. *)
Definition usable (marine : reading) : bool :=
  negb (nullish (wave marine)) || negb (nullish (wind marine)).

(** [typeof marine.wave === "number" && marine.wave > 3]. *)
Definition highWaves (marine : reading) : bool :=
  match wave marine with
  | Num w => 3 <? w
  | _ => false
  end.

(** The marine reply up to the alert. *)
Definition marineReport (p : place) (marine : reading) : outcome jstring :=
  let* n := show (name p) in
  let* c := show (country p) in
  let* t := show (time marine) in
  let* wv := showOrNa (wave marine) (js " m") in
  let* wd := showOrNa (wind marine) (js " m/s") in
  let* dir := showOrNa (waveDir marine) (js "°") in
  let* grid := coordinates (usedLat marine) (usedLon marine) 2 in
  Ret (js "🌊 Marine Weather for **" ++ n ++ js ", " ++ c ++ js "**" ++ nl
       ++ js "At " ++ t ++ js " (local):" ++ nl
       ++ js "• Wave height: " ++ wv ++ nl
       ++ js "• Wind speed: " ++ wd ++ nl
       ++ js "• Wave direction: " ++ dir ++ nl
       ++ js "• Grid used: " ++ grid).

Definition marineReply (p : place) (marine : reading) : outcome jstring :=
  let alert := if highWaves marine then stormWarning else [] in
  let* report := marineReport p marine in
  Ret (report ++ alert).

Definition landReply (p : place) (land : value) : outcome jstring :=
  let* n := show (name p) in
  let* c := show (country p) in
  let* te := show (get land (js "temperature")) in
  let* ws := show (get land (js "windspeed")) in
  let* wd := show (get land (js "winddirection")) in
  let* ti := show (get land (js "time")) in
  Ret (js "🌍 Weather for **" ++ n ++ js ", " ++ c
       ++ js "** (land fallback)" ++ nl
       ++ js "• Temperature: " ++ te ++ js " °C" ++ nl
       ++ js "• Windspeed: " ++ ws ++ js " km/h" ++ nl
       ++ js "• Wind direction: " ++ wd ++ js "°" ++ nl
       ++ js "• Time: " ++ ti ++ nl
       ++ js "• Note: Marine grid not available right at this point; moved to land weather.").

Definition notFoundWeather (placeName : jstring) : jstring :=
  js "I couldn’t find " ++ dquote ++ placeName ++ dquote
  ++ js ". Try another port/city.".

(** Step 3 and 4 of the weather flow: the land fallback. *)
Definition landFallback (p : place) : M jstring :=
  land <- getLandWeather rt net (lat p) (lon p) ;;
  if truthy land then lift (landReply p land)
  else
    ret (js "⚠️ Weather service error (marine & land). Please try again with another nearby coastal location.").

Definition weatherFlow (placeName : jstring) : M jstring :=
  tryCatch
    (found <- geocodePlace net placeName ;;
     match found with
     | None => ret (notFoundWeather placeName)
     | Some p =>
         marine <- getMarineWeatherNear rt net (lat p) (lon p) ;;
         match marine with
         | Some m =>
             if usable m then lift (marineReply p m) else landFallback p
         | None => landFallback p
         end
     end)
    (fun _ => ret weatherError).

(* ................................................................ *)
(** ** The handler *)

Definition echoReply (message : jstring) : jstring :=
  js "You asked: " ++ dquote ++ message ++ dquote
  ++ js ". This is a test response from backend.".

(** [app.post("/chat", ...)], from the parsed request body ([req.body],
    [undefined] when there is none) to the string the handler answers as
    [res.json({ reply })].  A [Throw] is an exception that leaves the
    handler: no reply is sent. *)
Definition chat (body : value) : M jstring :=
  message <-
    lift (callTrim (orDefault (optGet body (js "message")) (Str []))) ;;
  match message with
  | [] => ret (js "Please type a question.")
  | _ =>
      match exec distancePattern message with
      | Some distMatch =>
          distanceFlow (trim (nth 0 distMatch [])) (trim (nth 1 distMatch []))
      | None =>
          match exec weatherPattern message with
          | Some weatherMatch => weatherFlow (trim (nth 0 weatherMatch []))
          | None => ret (echoReply message)
          end
      end
  end.
End Chat.

(* ================================================================== *)
(** * 7. A runtime and services to run the model on *)
(* ================================================================== *)

(** Decimal digits of a natural number. *)
Definition digits (n : N) : jstring :=
  js (NilEmpty.string_of_uint (N.to_uint n)).

(** [x.toFixed(d)] for a finite [x] below 10^21 in magnitude: the integer
    [n] nearest to [|x| * 10^d] (the larger one on a tie), written with [d]
    decimals, after a minus sign when [x < 0]. *)
Definition sampleToFixed (x : float) (d : nat) : jstring :=
  match Prim2SF x with
  | S754_zero _ => js "0" ++ (if Nat.eqb d 0 then [] else js "." ++ repeat 48%N d)
  | S754_finite s m e =>
      let p := (10 ^ Z.of_nat d)%Z in
      let n :=
        if (0 <=? e)%Z then (Zpos m * 2 ^ e * p)%Z
        else ((2 * Zpos m * p + 2 ^ (- e)) / (2 * 2 ^ (- e)))%Z in
      let whole := digits (Z.to_N (n / p)) in
      let frac := digits (Z.to_N (n mod p)) in
      (if s then js "-" else [])
      ++ whole
      ++ (if Nat.eqb d 0 then []
          else js "." ++ repeat 48%N (d - length frac) ++ frac)
  | S754_infinity s => if s then js "-Infinity" else js "Infinity"
  | S754_nan => js "NaN"
  end.

(** [s] without its trailing zeros. *)
Definition dropZeros (s : jstring) : jstring :=
  rev ((fix drop (r : jstring) : jstring :=
          match r with
          | 48%N :: r' => drop r'
          | _ => r
          end) (rev s)).

(** A runtime for examples: first-order trigonometry ([sin x = x],
    [cos x = 1], [asin x = x]), [x ** y] as [x * x] (the program only
    squares), integral numbers rendered as JavaScript does and the others
    with at most three decimals, and no string read as a number. *)
Definition sampleRuntime : runtime := {|
  Math_sin := fun x => x;
  Math_cos := fun _ => 1;
  Math_asin := fun x => x;
  exponentiate := fun x _ => x * x;
  NumberToString := fun x =>
    if (Math_round x =? x) then sampleToFixed x 0
    else dropZeros (sampleToFixed x 3);
  toFixed := sampleToFixed;
  StringToNumber := fun _ => nan
|}.

Definition geocodeBody (n c : jstring) (la lo : float) : value :=
  Obj [(js "results",
        Arr [Obj [(js "name", Str n); (js "country", Str c);
                  (js "latitude", Num la); (js "longitude", Num lo)]])].

Definition marineBody (t : jstring) (wv wd dir : value) : value :=
  Obj [(js "hourly",
        Obj [(js "time", Arr [Str t]); (js "wave_height", Arr [wv]);
             (js "wind_speed", Arr [wd]);
             (js "wind_wave_direction", Arr [dir])])].

Definition success (v : value) : answer :=
  Answer {| status := 200; text := None; json := Some v |}.

Definition failure (code : Z) : answer :=
  Answer {| status := code; text := Some (js "error"); json := None |}.

(** Services for examples.  The geocoder knows four places; the marine
    service has data at sea only: at Rotterdam's own grid point (calm), half
    a degree west of Hamburg (high waves) and nowhere near Kansas City; the
    forecast service answers everywhere. *)
Definition sampleServices : services := fun _ q =>
  match q with
  | GeocodeReq n =>
      if jstring_eqb n (js "Mumbai") then
        success (geocodeBody (js "Mumbai") (js "India") 19 72.875)
      else if jstring_eqb n (js "Singapore") then
        success (geocodeBody (js "Singapore") (js "Singapore") 1.25 103.75)
      else if jstring_eqb n (js "Rotterdam") then
        success (geocodeBody (js "Rotterdam") (js "Netherlands") 52 4.5)
      else if jstring_eqb n (js "Hamburg") then
        success (geocodeBody (js "Hamburg") (js "Germany") 53.5 10)
      else if jstring_eqb n (js "Kansas City") then
        success (geocodeBody (js "Kansas City") (js "United States") 39 (-94.5))
      else success (Obj [])
  | MarineReq la lo =>
      if jstring_eqb la (js "52") && jstring_eqb lo (js "4.5") then
        success (marineBody (js "2025-08-30T00:00") (Num 1.2) (Num 6.5) (Num 270))
      else if jstring_eqb la (js "53.5") && jstring_eqb lo (js "9.5") then
        success (marineBody (js "2025-08-30T00:00") (Num 3.5) (Num 18) Null)
      else failure 400
  | LandReq la lo =>
      success
        (Obj [(js "current_weather",
               Obj [(js "temperature", Num 21); (js "windspeed", Num 9);
                    (js "winddirection", Num 180);
                    (js "time", Str (js "2025-08-30T12:00"))])])
  end.

(** Services that never answer. *)
Definition deadServices : services := fun _ _ => NoAnswer.

Definition say (s : string) : value := Obj [(js "message", Str (js s))].

(** Services like the sample ones, except that the marine service answers
    everywhere with an hourly time axis and no samples. *)
Definition noSamples : services := fun h q =>
  match q with
  | MarineReq _ _ =>
      success
        (Obj [(js "hourly",
               Obj [(js "time", Arr [Str (js "2025-08-30T00:00")])])])
  | _ => sampleServices h q
  end.

(* ================================================================== *)
(** * 8. The vocabulary of the properties *)
(* ================================================================== *)

Close Scope float_scope.

(** ** The probe *)

(** The request of a probe at a numeric point. *)
Definition marineReq (rt : runtime) (x y : float) : request :=
  MarineReq (NumberToString rt x) (NumberToString rt y).

(** The answer has no first hourly sample: [!h || !h.time?.length]. *)
Definition noHourly (data : value) : bool :=
  negb (truthy (optGet data (js "hourly")))
  || negb (truthy (optGet (get (optGet data (js "hourly")) (js "time"))
                          (js "length"))).

(** The reading [tryMarine] builds from an answer that has one. *)
Definition firstSample (data lat lon : value) : reading :=
  let h := optGet data (js "hourly") in
  {| time := index0 (get h (js "time"));
     wave := orElse (optIndex0 (get h (js "wave_height"))) Null;
     wind := orElse (optIndex0 (get h (js "wind_speed"))) Null;
     waveDir := orElse (optIndex0 (get h (js "wind_wave_direction"))) Null;
     usedLat := lat;
     usedLon := lon |}.

(** ** The search *)

(** The offsets as the specification lists them:
    [0, +0.25, -0.25, +0.5, -0.5, +0.75, -0.75, +1, -1]. *)
Definition documentedOffsets : list float :=
  [0; 0.25; -0.25; 0.5; -0.5; 0.75; -0.75; 1; -1]%float.

(** The candidate points in the order of the specification: the offset of
    the latitude in the outer position, that of the longitude in the inner
    one. *)
Definition candidates (x y : float) : list (float * float) :=
  flat_map
    (fun dlat => map (fun dlon => (x + dlat, y + dlon)%float) documentedOffsets)
    documentedOffsets.

(** The requests of the first [k] candidates. *)
Definition probed (rt : runtime) (x y : float) (k : nat) : list request :=
  map (fun c => marineReq rt (fst c) (snd c)) (firstn k (candidates x y)).

(** What the probe of candidate [i] returns in its turn: when the
    candidates before it have been probed, after the requests [h]. *)
Definition probe (rt : runtime) (net : services) (x y : float)
    (h : list request) (i : nat) : outcome (option reading) :=
  match nth_error (candidates x y) i with
  | Some c => fst (tryMarine rt net (Num (fst c)) (Num (snd c))
                     (h ++ probed rt x y i))
  | None => Ret None
  end.

(** ** The distance *)

(** Degrees to radians, as a formula on numbers. *)
Definition radians (deg : float) : float := (deg * Math_PI / 180)%float.

(** The haversine formula in the words of the specification,
      a = sin²(Δlat/2) + cos(lat1)·cos(lat2)·sin²(Δlon/2)
      d_km = 2 · R_earth_km · asin(min(1, sqrt(a)))
      d_nm = d_km · 0.539957
    with R_earth_km = 6371, angles in radians, and every operation that of
    the numbers of the language. *)
Definition haversineNm (rt : runtime) (lat1 lon1 lat2 lon2 : float) : float :=
  let dlat := radians (lat2 - lat1) in
  let dlon := radians (lon2 - lon1) in
  let a :=
    (exponentiate rt (Math_sin rt (dlat / 2)) 2
     + Math_cos rt (radians lat1) * Math_cos rt (radians lat2)
       * exponentiate rt (Math_sin rt (dlon / 2)) 2)%float in
  let d_km := (2 * 6371 * Math_asin rt (Math_min 1 (sqrt a)))%float in
  (d_km * 0.539957)%float.

(** The half-angle term of the formula, for a difference [d] in degrees. *)
Definition halfAngle (rt : runtime) (d : float) : float :=
  exponentiate rt (Math_sin rt (radians d / 2)%float) 2.

(** The rational number a finite float denotes: [(-1)^s * m * 2^e]. *)
Definition valueOf (x : float) : option Q :=
  match Prim2SF x with
  | S754_zero _ => Some 0%Q
  | S754_finite s m e =>
      let M := cond_Zopp s (Z.pos m) in
      Some (if (0 <=? e)%Z then inject_Z (M * 2 ^ e)
            else Qmake M (Z.to_pos (2 ^ (- e))))
  | _ => None
  end.


(** A place as the geocoder returns it for an answer of its documented
    shape: name and country strings, latitude and longitude numbers. *)
Definition placeAt (n c : jstring) (x y : float) : place :=
  {| name := Str n; country := Str c; lat := Num x; lon := Num y |}.


(** The wave height of a reading is a number above 3. *)
Definition wavesAbove3 (m : reading) : Prop :=
  exists w, wave m = Num w /\ (3 <? w)%float = true.

(** [s] has a warning sign (U+26A0), the first code unit of the
    storm-warning line. *)
Definition hasSign (s : jstring) : bool := existsb (N.eqb 9888) s.

(** The strings the marine reply takes from the services and the engine
    have no warning sign: the renderings of the place's name and country,
    of the reading's time, wave height, wind speed and wave direction, and
    of the grid point. *)
Definition dataWithoutSign (rt : runtime) (p : place) (m : reading) : Prop :=
  forall t,
    In (Ret t)
       [show rt (name p); show rt (country p); show rt (time m);
        show rt (wave m); show rt (wind m); show rt (waveDir m);
        callToFixed rt (usedLat m) 2; callToFixed rt (usedLon m) 2] ->
    hasSign t = false.

(* ================================================================== *)
(** * 9. The upload endpoint *)
(* ================================================================== *)

(** What the handler reads of [req.file]: the name the client gave the
    file, and the size [fs.statSync] reports for the stored copy ([None]
    when it throws). *)
Record upload := {
  originalname : jstring;
  statSize : option float
}.

(** [app.post("/documents/upload", ...)], from [req.file] ([None] when the
    request carries no file) to the status and the body of the answer. *)
Definition documentsUpload (rt : runtime) (file : option upload)
    : Z * value :=
  match file with
  | None => (400%Z, Obj [(js "error", Str (js "No file uploaded"))])
  | Some f =>
      let size :=
        match statSize f with
        | Some n => n
        | None => 0%float
        end in
      (200%Z,
       Obj [(js "name", Str (originalname f));
            (js "summary",
             Str (js "Placeholder summary. File size: "
                  ++ NumberToString rt size ++ js " bytes."))])
  end.

(* ================================================================== *)
(** * 10. The page (frontend/src/App.jsx) *)
(* ================================================================== *)

Inductive role := user | assistant.

Inductive mode := chatMode | voiceMode.

(** The state of the component that [send] and [handleFile] read and
    write, with what leaves the page: the requests posted (URL and parsed
    body) and the texts handed to the speech synthesis. *)
Record page := {
  apiBase : jstring;
  pageMode : mode;
  input : jstring;
  transcript : jstring;
  messages : list (role * value);
  busy : bool;
  canSpeak : bool;
  posted : list (jstring * value);
  spoken : list value
}.

(** The backend as the page sees it: for a URL and a body, the value
    [res.json()] resolves to, whatever the status of the answer; [None]
    when [fetch] or [res.json()] rejects. *)
Definition backend := jstring -> value -> option value.

Definition setMessages (f : list (role * value) -> list (role * value))
    (st : page) : page :=
  {| apiBase := apiBase st; pageMode := pageMode st; input := input st;
     transcript := transcript st; messages := f (messages st);
     busy := busy st; canSpeak := canSpeak st; posted := posted st;
     spoken := spoken st |}.

Definition setBusy (b : bool) (st : page) : page :=
  {| apiBase := apiBase st; pageMode := pageMode st; input := input st;
     transcript := transcript st; messages := messages st;
     busy := b; canSpeak := canSpeak st; posted := posted st;
     spoken := spoken st |}.

Definition setInput (s : jstring) (st : page) : page :=
  {| apiBase := apiBase st; pageMode := pageMode st; input := s;
     transcript := transcript st; messages := messages st;
     busy := busy st; canSpeak := canSpeak st; posted := posted st;
     spoken := spoken st |}.

Definition setTranscript (s : jstring) (st : page) : page :=
  {| apiBase := apiBase st; pageMode := pageMode st; input := input st;
     transcript := s; messages := messages st;
     busy := busy st; canSpeak := canSpeak st; posted := posted st;
     spoken := spoken st |}.

Definition post (url : jstring) (body : value) (st : page) : page :=
  {| apiBase := apiBase st; pageMode := pageMode st; input := input st;
     transcript := transcript st; messages := messages st;
     busy := busy st; canSpeak := canSpeak st;
     posted := posted st ++ [(url, body)]; spoken := spoken st |}.

(** [apiFetch(path, options)], with the parsed body of [options]: the
    answer as JSON, or an object with an [error] when it cannot be had. *)
Definition apiFetch (net : backend) (path : jstring) (body : value)
    (st : page) : value * page :=
  let url := apiBase st ++ path in
  match net url body with
  | Some data => (data, post url body st)
  | None => (Obj [(js "error", Str (js "Cannot reach " ++ url))],
             post url body st)
  end.

(** [speak(text)]: an exception of the speech synthesis is swallowed. *)
Definition speak (text : value) (st : page) : page :=
  if canSpeak st then
    {| apiBase := apiBase st; pageMode := pageMode st; input := input st;
       transcript := transcript st; messages := messages st;
       busy := busy st; canSpeak := canSpeak st; posted := posted st;
       spoken := spoken st ++ [text] |}
  else st.

(** [send(text)], run to its end from the state of the render it was
    created in, no other event in between.  The body posted is
    [JSON.stringify({ message: content })], as the server parses it. *)
Definition send (net : backend) (text : value) (st : page) : outcome page :=
  let* content := callTrim (orElse text (Str (input st))) in
  match content with
  | [] => Ret st
  | _ =>
      let st := setTranscript [] (setInput [] st) in
      let st :=
        match pageMode st with
        | chatMode =>
            setBusy true
              (setMessages (fun m => m ++ [(user, Str content)]) st)
        | voiceMode => st
        end in
      let (data, st) :=
        apiFetch net (js "/chat") (Obj [(js "message", Str content)]) st in
      let st := setBusy false st in
      let reply :=
        orDefault (orDefault (optGet data (js "reply"))
                             (optGet data (js "error")))
                  (Str (js "(no reply)")) in
      let st :=
        match pageMode st with
        | chatMode => setMessages (fun m => m ++ [(assistant, reply)]) st
        | voiceMode => st
        end in
      Ret (speak reply st)
  end.

(** [handleFile(e, type)] for the first file of the event, of name
    [fileName] ([None] when there is none), run until the promise of the
    answer settles.  [cp] is [type === "cp"].  The form posted is shown by
    the name of its file; a rejected [fetch] or [res.json()], or an
    exception in the callback, leaves the promise rejected and the messages
    as they are. *)
Definition handleFile (rt : runtime) (net : backend)
    (fileName : option jstring) (cp : bool) (st : page) : page :=
  match fileName with
  | None => st
  | Some f =>
      let st :=
        setMessages
          (fun m => m ++ [(user, Str (js "📄 Uploading " ++ f ++ js "…"))])
          st in
      let endpoint :=
        if cp then js "/documents/upload-cp" else js "/documents/upload" in
      let url := apiBase st ++ endpoint in
      let st := post url (Obj [(js "file", Str f)]) st in
      match net url (Obj [(js "file", Str f)]) with
      | None => st
      | Some data =>
          if truthy (optGet data (js "error")) then
            match ToString rt (get data (js "error")) with
            | Ret e =>
                setMessages
                  (fun m => m ++ [(assistant, Str (js "❌ " ++ e))]) st
            | Throw _ => st
            end
          else
            let summaryText :=
              orDefault (optGet data (js "summary"))
                        (Str (js "(No summary)")) in
            match ToString rt summaryText with
            | Ret s =>
                setMessages
                  (fun m =>
                     m ++ [(assistant,
                            Str (js "✅ " ++ f ++ js " uploaded." ++ nl ++ nl
                                 ++ js "Summary:" ++ nl ++ s))])
                  st
            | Throw _ => st
            end
      end
  end.

(* ================================================================== *)
(** * 11. The vocabulary of the further properties *)
(* ================================================================== *)

(** ** The requests of a turn *)

(** A computation makes at most [n] requests, whatever the requests made
    before it: it appends at most [n] entries to the history. *)
Definition atMost {A} (n : nat) (m : M A) : Prop :=
  forall h, exists t, snd (m h) = h ++ t /\ length t <= n.

(** ** The patterns *)

(** A capture of a group [[c]+]: not empty, and made of [c] only. *)
Definition run (p : N -> bool) (x : jstring) : Prop :=
  x <> [] /\ forallb p x = true.

(** Every capturing group of [r] is [(c+)] or [(c+?)] for the class [p]. *)
Fixpoint groupsOf (p : N -> bool) (r : regex) : Prop :=
  match r with
  | Seq r1 r2 | Alt r1 r2 => groupsOf p r1 /\ groupsOf p r2
  | Group r1 => r1 = Plus p \/ r1 = PlusLazy p
  | _ => True
  end.

(** [r] is [r1 r2 ... (c+)$]: it ends with a group of [p] at the end of
    the input. *)
Fixpoint endsWithGroup (p : N -> bool) (r : regex) : Prop :=
  match r with
  | Seq (Group (Plus q)) Eoi => q = p
  | Seq r1 r2 => groupsOf p r1 /\ endsWithGroup p r2
  | _ => False
  end.

(** The other case of a letter. *)
Definition otherCase (c : N) : N :=
  if (c <? 97)%N then (c + 32)%N else (c - 32)%N.

(** [c'] is [c], or [c] in its other case when [c] is a letter. *)
Definition caseVariant (c c' : N) : bool :=
  (c' =? c)%N || (isLetter c && (c' =? otherCase c)%N).

(** [s'] is [s] with the case of some of its letters changed. *)
Fixpoint sameUpToCase (s s' : jstring) : bool :=
  match s, s' with
  | [], [] => true
  | c :: t, c' :: t' => caseVariant c c' && sameUpToCase t t'
  | _, _ => false
  end.

(** The same captures, up to the case of letters. *)
Fixpoint allAlike (c c' : list jstring) : bool :=
  match c, c' with
  | [], [] => true
  | x :: t, x' :: t' => sameUpToCase x x' && allAlike t t'
  | _, _ => false
  end.

(** Two results of [match]: both [null], or both a match with the same
    captures up to the case of letters. *)
Definition capturesAlike (o o' : option (list jstring)) : bool :=
  match o, o' with
  | Some c, Some c' => allAlike c c'
  | None, None => true
  | _, _ => false
  end.

(** Every check of a code unit in [r] is blind to the case of letters. *)
Fixpoint caseBlind (r : regex) : Prop :=
  match r with
  | Unit p | Plus p | PlusLazy p =>
      forall c c', caseVariant c c' = true -> p c' = p c
  | Seq r1 r2 | Alt r1 r2 => caseBlind r1 /\ caseBlind r2
  | Group r1 => caseBlind r1
  | Eoi => True
  end.

(** ** Geocoding and the replies *)

(** The place [geocodePlace] makes of an answer: of its first result, if
    there is one. *)
Definition firstResult (data : value) : option place :=
  let first := optIndex0 (optGet data (js "results")) in
  if truthy first then
    Some {| name := get first (js "name");
            country := orDefault (get first (js "country")) (Str []);
            lat := get first (js "latitude");
            lon := get first (js "longitude") |}
  else None.

(** The reply of the distance flow, from what the two lookups came to. *)
Definition distanceOutcome (rt : runtime) (fromName toName : jstring)
    (o1 o2 : outcome (option place)) : jstring :=
  match o1, o2 with
  | Throw _, _ | _, Throw _ => distanceError
  | Ret None, Ret _ => notFoundDistance fromName
  | Ret (Some _), Ret None => notFoundDistance toName
  | Ret (Some from), Ret (Some to) =>
      match distanceReply rt from to with
      | Ret s => s
      | Throw _ => distanceError
      end
  end.

(** [s] starts with one of the code units [cs]. *)
Definition startsWithOneOf (cs : list N) (s : jstring) : bool :=
  match s with
  | c :: _ => existsb (N.eqb c) cs
  | [] => false
  end.

(** The first code units of the replies of the two flows and of the echo:
    "I", "Y", the warning sign, and the high surrogates of the emoji. *)
Definition replyHeads : list N := [73; 89; 9888; 55356; 55357]%N.

(** The reply of the weather flow when neither service has data. *)
Definition bothFailed : jstring :=
  js "⚠️ Weather service error (marine & land). Please try again with another nearby coastal location.".

(** The request of the land fallback at a numeric point. *)
Definition landReq (rt : runtime) (x y : float) : request :=
  LandReq (NumberToString rt x) (NumberToString rt y).

(** The reply of the land fallback, from the answer of the forecast
    service. *)
Definition landOutcome (rt : runtime) (p : place) (a : answer) : jstring :=
  match a with
  | NoAnswer => weatherError
  | Answer r =>
      if ok r then
        match json r with
        | None => weatherError
        | Some data =>
            let land := optGet data (js "current_weather") in
            if truthy land then
              match landReply rt p land with
              | Ret s => s
              | Throw _ => weatherError
              end
            else bothFailed
        end
      else bothFailed
  end.

(** ** The distance *)

(** [z] is NaN or lies between 0 and 1, within the domain of [Math.asin]
    (from -1 to 1). *)
Definition inAsinDomain (z : float) : Prop :=
  is_nan z = true \/ ((0 <=? z)%float = true /\ (z <=? 1)%float = true).

(** ** The page and its backend *)

(** The backend of the page is this server: to a body the handler of
    [POST /chat] replies to, after the requests [h], the page gets the
    JSON of [{ reply }]. *)
Definition servedBy (rt : runtime) (svc : services) (h : list request)
    (net : backend) (st : page) : Prop :=
  forall body reply,
    fst (chat rt svc body h) = Ret reply ->
    net (apiBase st ++ js "/chat") body = Some (Obj [(js "reply", Str reply)]).

(** ** More services to run the model on *)

(** Services like the sample ones, with a marine service that is down. *)
Definition marineDown : services := fun h q =>
  match q with
  | MarineReq _ _ => NoAnswer
  | _ => sampleServices h q
  end.

(** Services like the sample ones, with no marine data anywhere and a
    forecast service that answers with an error status. *)
Definition landDown : services := fun h q =>
  match q with
  | MarineReq _ _ => failure 400
  | LandReq _ _ => failure 503
  | _ => sampleServices h q
  end.

(** Services like the sample ones, with a marine service whose clock shows
    the text of the storm warning: calm sea, one metre of waves. *)
Definition warningInTime : services := fun h q =>
  match q with
  | MarineReq _ _ =>
      success (marineBody stormLine (Num 1) (Num 6.5) (Num 270))
  | _ => sampleServices h q
  end.

(** A backend for examples: the sample services behind [POST /chat], the
    upload endpoint with a file of 2048 bytes behind [/documents/upload]. *)
Definition sampleBackend : backend := fun url body =>
  if jstring_eqb url (js "http://localhost:8000/chat") then
    match fst (chat sampleRuntime sampleServices body []) with
    | Ret reply => Some (Obj [(js "reply", Str reply)])
    | Throw _ => None
    end
  else if jstring_eqb url (js "http://localhost:8000/documents/upload") then
    Some (snd (documentsUpload sampleRuntime
                 (Some {| originalname := js "cp.pdf";
                          statSize := Some 2048%float |})))
  else None.

Definition samplePage : page :=
  {| apiBase := js "http://localhost:8000"; pageMode := chatMode;
     input := js "  weather at Rotterdam "; transcript := [];
     messages := []; busy := false; canSpeak := true;
     posted := []; spoken := [] |}.

(* ================================================================== *)
(** * 12. The handler always answers a string *)
(* ================================================================== *)

Lemma Ret_inj {A} (a b : A) : Ret a = Ret b -> a = b.
Proof. intros E. now injection E. Qed.

Lemma trimStart_blank (s : jstring) :
  forallb isWhiteSpace s = true -> trimStart s = [].
Proof.
  induction s as [|c s IH]; simpl; [reflexivity|].
  intros H. apply andb_true_iff in H as [Hc Hs].
  rewrite Hc. auto.
Qed.

Lemma trim_blank (s : jstring) :
  forallb isWhiteSpace s = true -> trim s = [].
Proof.
  intros H. unfold trim. rewrite (trimStart_blank s H). reflexivity.
Qed.

Lemma truthy_Str (s : jstring) : truthy (Str s) = false -> s = [].
Proof. destruct s; simpl; [reflexivity|discriminate]. Qed.

(** [message || ""] for a message that is falsy or a string. *)
Lemma message_or_empty (v : value) :
  truthy v = false \/ (exists s, v = Str s) ->
  exists s, orDefault v (Str []) = Str s.
Proof.
  unfold orDefault. intros [F|[s E]].
  - exists []. now rewrite F.
  - subst v. destruct (truthy (Str s)); eauto.
Qed.

(** A [try] whose handler returns always returns. *)
Lemma tryCatch_returns {A} (m : M A) (c : A) (h : list request) :
  exists a h', tryCatch m (fun _ => ret c) h = (Ret a, h').
Proof.
  unfold tryCatch, ret. destruct (m h) as [[a|e] h']; eauto.
Qed.

Lemma distanceFlow_returns rt net a b h :
  exists reply h', distanceFlow rt net a b h = (Ret reply, h').
Proof. apply tryCatch_returns. Qed.

Lemma weatherFlow_returns rt net a h :
  exists reply h', weatherFlow rt net a h = (Ret reply, h').
Proof. apply tryCatch_returns. Qed.

Lemma chat_of_message rt net body s h :
  orDefault (optGet body (js "message")) (Str []) = Str s ->
  exists reply h', chat rt net body h = (Ret reply, h').
Proof.
  intros E. unfold chat, bind, lift. rewrite E. simpl.
  destruct (trim s) as [|c m] eqn:Em.
  - unfold ret. eauto.
  - destruct (exec distancePattern (c :: m)) as [dm|].
    + apply distanceFlow_returns.
    + destruct (exec weatherPattern (c :: m)) as [wm|].
      * apply weatherFlow_returns.
      * unfold ret. eauto.
Qed.

(** The router: a message that is not blank goes to the distance flow when
    the distance pattern matches, else to the weather flow when the weather
    pattern matches, else to the echo. *)
Lemma chat_routes rt net body s h :
  orDefault (optGet body (js "message")) (Str []) = Str s ->
  trim s <> [] ->
  chat rt net body h =
  match exec distancePattern (trim s) with
  | Some distMatch =>
      distanceFlow rt net (trim (nth 0 distMatch [])) (trim (nth 1 distMatch []))
        h
  | None =>
      match exec weatherPattern (trim s) with
      | Some weatherMatch => weatherFlow rt net (trim (nth 0 weatherMatch [])) h
      | None => (Ret (echoReply (trim s)), h)
      end
  end.
Proof.
  intros E N. unfold chat, bind, lift. rewrite E. simpl.
  destruct (trim s) as [|c m]; [contradiction|].
  destruct (exec distancePattern (c :: m)); [reflexivity|].
  destruct (exec weatherPattern (c :: m)); reflexivity.
Qed.

Example distance_message_matches :
  exec distancePattern (js "What is the DISTANCE  New York   ->  Los Angeles")
  = Some [js "New York"; js "Los Angeles"].
Proof. vm_compute. reflexivity. Qed.

Example weather_message_matches :
  exec weatherPattern (js "weather in   Kansas City") = Some [js "Kansas City"]
  /\ exec weatherPattern (js "weather at Rotterdam!") = None.
Proof. split; vm_compute; reflexivity. Qed.

(** C7, as amended.  For every request body whose [message] is absent,
    falsy or a string, and every behaviour of the three services, the
    handler answers [res.json({ reply })] with a string: a failure of
    geocoding, of the marine service or of the land service ends in one of
    the replies of the flows, never in an exception. *)
Theorem chat_replies_to_any_string rt net body h :
  truthy (optGet body (js "message")) = false
  \/ (exists s, optGet body (js "message") = Str s) ->
  exists reply h', chat rt net body h = (Ret reply, h').
Proof.
  intros H. destruct (message_or_empty _ H) as [s E].
  now apply (chat_of_message rt net body s).
Qed.

Lemma chat_replies_to_any_string_witness :
  exists reply h',
    chat sampleRuntime deadServices (say "weather at Rotterdam") []
    = (Ret reply, h').
Proof.
  apply (chat_replies_to_any_string sampleRuntime deadServices
           (say "weather at Rotterdam") []).
  right. eexists. vm_compute. reflexivity.
Defined.

(** C7, as stated, fails: a message that is a number (any truthy value
    that is not a string) has no [trim] method, the call throws before the
    [try] blocks, and the handler sends no reply. *)
Lemma chat_throws_on_number_message :
  chat sampleRuntime sampleServices (Obj [(js "message", Num 42)]) []
  = (Throw TypeError, []).
Proof. vm_compute. reflexivity. Qed.

(** C10.  A request whose [message] is absent (or any falsy value), empty,
    or made of white space only is answered "Please type a question." at
    once: the reply does not depend on the patterns or the services, and
    no request is made. *)
Theorem chat_blank_message rt net body h :
  truthy (optGet body (js "message")) = false
  \/ (exists s, optGet body (js "message") = Str s
                /\ forallb isWhiteSpace s = true) ->
  chat rt net body h = (Ret (js "Please type a question."), h).
Proof.
  intros H.
  assert (E : exists s, orDefault (optGet body (js "message")) (Str []) = Str s
                        /\ trim s = []).
  { destruct H as [F|[s [E W]]].
    - exists []. unfold orDefault. rewrite F. split; reflexivity.
    - exists s. split; [|now apply trim_blank].
      unfold orDefault. rewrite E.
      destruct (truthy (Str s)) eqn:T; [reflexivity|].
      now rewrite (truthy_Str s T). }
  destruct E as [s [E T]].
  unfold chat, bind, lift. rewrite E. simpl. rewrite T. reflexivity.
Qed.

Lemma chat_blank_message_witness :
  chat sampleRuntime sampleServices (say "   ") []
  = (Ret (js "Please type a question."), []).
Proof.
  apply (chat_blank_message sampleRuntime sampleServices (say "   ") []).
  right. exists (js "   "). split; vm_compute; reflexivity.
Defined.

(* ================================================================== *)
(** * 13. The marine probe *)
(* ================================================================== *)

(** [tryMarine] at a numeric point makes one request, and its result is
    read off the answer. *)
Lemma tryMarine_Num rt net x y h :
  tryMarine rt net (Num x) (Num y) h =
  (match net h (marineReq rt x y) with
   | NoAnswer => Throw FetchRejected
   | Answer r =>
       if ok r then
         match json r with
         | None => Throw BodyRejected
         | Some data =>
             Ret (if noHourly data then None
                  else Some (firstSample data (Num x) (Num y)))
         end
       else Ret None
   end, h ++ [marineReq rt x y]).
Proof.
  unfold tryMarine, bind, lift, fetch, jsonOf, marineReq, noHourly. simpl.
  destruct (net h _) as [|r]; [reflexivity|].
  destruct (ok r); simpl;
    [|unfold textOrEmpty, tryCatch, textOf; now destruct (text r)].
  destruct (json r) as [data|]; simpl; [|reflexivity].
  match goal with |- context [if ?c then _ else _] => destruct c end;
    reflexivity.
Qed.

Lemma tryMarine_requests rt net x y h :
  snd (tryMarine rt net (Num x) (Num y) h) = h ++ [marineReq rt x y].
Proof. now rewrite tryMarine_Num. Qed.

(** C6, as amended.  For every numeric point and every behaviour of the
    marine service: the probe throws exactly when the request gets no
    answer (a network failure) or a successful answer's body cannot be
    parsed; an answer with a status that is not a success is reported as
    nothing found, whether or not its body can be read, and so is a
    parsed answer without a first hourly sample. *)
Theorem tryMarine_throws_iff rt net x y h :
  ((exists e, fst (tryMarine rt net (Num x) (Num y) h) = Throw e) <->
   (net h (marineReq rt x y) = NoAnswer
    \/ exists r, net h (marineReq rt x y) = Answer r
                 /\ ok r = true /\ json r = None))
  /\ (forall r, net h (marineReq rt x y) = Answer r -> ok r = false ->
        fst (tryMarine rt net (Num x) (Num y) h) = Ret None)
  /\ (forall r data, net h (marineReq rt x y) = Answer r -> ok r = true ->
        json r = Some data -> noHourly data = true ->
        fst (tryMarine rt net (Num x) (Num y) h) = Ret None).
Proof.
  rewrite tryMarine_Num. simpl. repeat split.
  - intros [e E]. destruct (net h _) as [|r]; [now left|right].
    exists r. destruct (ok r); [|discriminate].
    destruct (json r); [discriminate|]. auto.
  - intros [E|[r [E [O J]]]]; rewrite E; [eauto|].
    rewrite O, J. eauto.
  - intros r E O. now rewrite E, O.
  - intros r data E O J N. now rewrite E, O, J, N.
Qed.

(** C6, as stated, fails: when the marine service does not answer, the
    rejection of [fetch] leaves the probe as an exception. *)
Lemma tryMarine_throws_without_answer :
  fst (tryMarine sampleRuntime deadServices (Num 52) (Num 4.5) [])
  = Throw FetchRejected.
Proof. vm_compute. reflexivity. Qed.

(** The three ways of finding nothing, and a reading, on the sample
    services. *)
Example tryMarine_on_land :
  tryMarine sampleRuntime sampleServices (Num 39) (Num (-94.5)) []
  = (Ret None, [MarineReq (js "39") (js "-94.5")]).
Proof. vm_compute. reflexivity. Qed.

Example tryMarine_at_sea :
  fst (tryMarine sampleRuntime sampleServices (Num 52) (Num 4.5) [])
  = Ret (Some {| time := Str (js "2025-08-30T00:00");
                 wave := Num 1.2; wind := Num 6.5; waveDir := Num 270;
                 usedLat := Num 52; usedLon := Num 4.5 |}).
Proof. vm_compute. reflexivity. Qed.

Example tryMarine_error_without_body :
  tryMarine sampleRuntime
    (fun _ _ => Answer {| status := 502; text := None; json := None |})
    (Num 52) (Num 4.5) []
  = (Ret None, [MarineReq (js "52") (js "4.5")]).
Proof. vm_compute. reflexivity. Qed.

Example tryMarine_empty_series :
  tryMarine sampleRuntime
    (fun _ _ => success (Obj [(js "hourly", Obj [(js "time", Arr [])])]))
    (Num 52) (Num 4.5) []
  = (Ret None, [MarineReq (js "52") (js "4.5")]).
Proof. vm_compute. reflexivity. Qed.

Example tryMarine_unparsable_body :
  tryMarine sampleRuntime
    (fun _ _ => Answer {| status := 200; text := Some (js "<html>");
                          json := None |})
    (Num 52) (Num 4.5) []
  = (Throw BodyRejected, [MarineReq (js "52") (js "4.5")]).
Proof. vm_compute. reflexivity. Qed.

(** C2, as stated, fails: an answer with an hourly time axis and no
    samples makes the probe return a reading whose wave height and wind
    speed are both [null]. *)
Lemma tryMarine_reading_without_wave_or_wind :
  exists m,
    fst (tryMarine sampleRuntime noSamples (Num 52) (Num 4.5) [])
    = Ret (Some m)
    /\ wave m = Null /\ wind m = Null.
Proof. eexists. vm_compute. repeat split. Qed.

(* ================================================================== *)
(** * 14. The search around the point *)
(* ================================================================== *)

Lemma forOf_app {A B} (l1 l2 : list A) (body : A -> M (option B)) h :
  forOf (l1 ++ l2) body h =
  (r <- forOf l1 body ;;
   match r with
   | Some b => ret (Some b)
   | None => forOf l2 body
   end) h.
Proof.
  revert h. induction l1 as [|a l1 IH]; intros h; simpl.
  - reflexivity.
  - unfold bind in *. destruct (body a h) as [[[b|]|e] h']; simpl.
    + reflexivity.
    + apply IH.
    + reflexivity.
Qed.

Lemma forOf_map {A A' B} (f : A -> A') (l : list A)
    (body : A' -> M (option B)) h :
  forOf (map f l) body h = forOf l (fun a => body (f a)) h.
Proof.
  revert h. induction l as [|a l IH]; intros h; simpl; [reflexivity|].
  unfold bind. destruct (body (f a) h) as [[[b|]|e] h']; auto.
Qed.

(** A loop in a loop is one loop over the pairs, outer index first. *)
Lemma forOf_nested {A B C} (xs : list A) (ys : list B)
    (body : A -> B -> M (option C)) h :
  forOf xs (fun a => forOf ys (body a)) h =
  forOf (flat_map (fun a => map (pair a) ys) xs)
        (fun ab => body (fst ab) (snd ab)) h.
Proof.
  revert h. induction xs as [|a xs IH]; intros h; simpl; [reflexivity|].
  rewrite forOf_app. unfold bind.
  rewrite forOf_map. simpl.
  destruct (forOf ys (body a) h) as [[[c|]|e] h']; auto.
Qed.

Lemma candidates_pairs (x y : float) :
  candidates x y =
  map (fun ab => (x + fst ab, y + snd ab)%float)
      (flat_map (fun a => map (pair a) offsets) offsets).
Proof. reflexivity. Qed.

(** The resolver is the loop over the candidates. *)
Lemma resolver_flat rt net x y h :
  getMarineWeatherNear rt net (Num x) (Num y) h =
  forOf (candidates x y)
        (fun c => tryMarine rt net (Num (fst c)) (Num (snd c))) h.
Proof.
  unfold getMarineWeatherNear.
  rewrite (forOf_nested offsets offsets
             (fun dlat dlon =>
                la <- lift (plus rt (Num x) dlat) ;;
                lo <- lift (plus rt (Num y) dlon) ;;
                tryMarine rt net la lo)).
  rewrite candidates_pairs, forOf_map. reflexivity.
Qed.

Section Loop.
Variable rt : runtime.
Variable net : services.

Let P (c : float * float) := tryMarine rt net (Num (fst c)) (Num (snd c)).
Let req (c : float * float) := marineReq rt (fst c) (snd c).

(** What the probe of item [i] of [cs] returns in its turn. *)
Let turn (cs : list (float * float)) (h : list request) (i : nat) :=
  match nth_error cs i with
  | Some c => fst (P c (h ++ map req (firstn i cs)))
  | None => Ret None
  end.

(** The loop probes a prefix of its list, in order: all but the last
    probe find nothing, and the last one decides the result. *)
Lemma loop_spec (cs : list (float * float)) : forall h,
  exists k,
    k <= length cs
    /\ snd (forOf cs P h) = h ++ map req (firstn k cs)
    /\ (forall i, S i < k -> turn cs h i = Ret None)
    /\ match fst (forOf cs P h) with
       | Ret (Some m) => exists j, k = S j /\ turn cs h j = Ret (Some m)
       | Ret None =>
           k = length cs /\ forall i, i < length cs -> turn cs h i = Ret None
       | Throw e => exists j, k = S j /\ turn cs h j = Throw e
       end.
Proof.
  induction cs as [|c cs IH]; intros h.
  - exists 0. simpl. rewrite app_nil_r.
    split; [lia|]. split; [reflexivity|]. split; [intros; lia|].
    split; [reflexivity|intros; lia].
  - assert (Hs : snd (P c h) = h ++ [req c]) by apply tryMarine_requests.
    assert (T0 : turn (c :: cs) h 0 = fst (P c h)).
    { unfold turn. simpl. now rewrite app_nil_r. }
    assert (TS : forall i, turn (c :: cs) h (S i) = turn cs (h ++ [req c]) i).
    { intros i. unfold turn. simpl.
      destruct (nth_error cs i); [|reflexivity].
      now rewrite <- app_assoc. }
    simpl forOf. unfold bind.
    destruct (P c h) as [[[m|]|e] h'] eqn:E; simpl in Hs; subst h'.
    + exists 1. simpl. split; [lia|]. split; [reflexivity|].
      split; [intros i Hi; lia|].
      exists 0. rewrite T0. auto.
    + destruct (IH (h ++ [req c])) as [k [Hk [Hh [Hb Ho]]]].
      exists (S k). simpl. split; [lia|]. split; [|split].
      * rewrite Hh, <- app_assoc. reflexivity.
      * intros [|i] Hi; [now rewrite T0|]. rewrite TS. apply Hb. lia.
      * destruct (fst (forOf cs P (h ++ [req c]))) as [[m|]|e].
        -- destruct Ho as [j [-> Hj]]. exists (S j). now rewrite TS.
        -- destruct Ho as [-> Hall]. split; [reflexivity|].
           intros [|i] Hi; [now rewrite T0|]. rewrite TS. apply Hall. lia.
        -- destruct Ho as [j [-> Hj]]. exists (S j). now rewrite TS.
    + exists 1. simpl. split; [lia|]. split; [reflexivity|].
      split; [intros i Hi; lia|].
      exists 0. rewrite T0. auto.
Qed.
End Loop.

Lemma candidates_length x y : length (candidates x y) = 81.
Proof. reflexivity. Qed.

Lemma resolver_spec rt net x y h :
  exists k,
    k <= 81
    /\ snd (getMarineWeatherNear rt net (Num x) (Num y) h) = h ++ probed rt x y k
    /\ (forall i, S i < k -> probe rt net x y h i = Ret None)
    /\ match fst (getMarineWeatherNear rt net (Num x) (Num y) h) with
       | Ret (Some m) => exists j, k = S j /\ probe rt net x y h j = Ret (Some m)
       | Ret None => k = 81 /\ forall i, i < 81 -> probe rt net x y h i = Ret None
       | Throw e => exists j, k = S j /\ probe rt net x y h j = Throw e
       end.
Proof.
  rewrite resolver_flat.
  destruct (loop_spec rt net (candidates x y) h) as [k H].
  rewrite candidates_length in H. exists k. exact H.
Qed.

(** C1.  For every numeric target point and every behaviour of the probe,
    the resolver probes the candidates in the documented nested order,
    the point itself first: the requests it makes are those of the first
    [k] candidates, in order; every probe but the last reports nothing;
    and the last probe decides: the resolver returns the reading it
    finds (and no later candidate is probed), or reports nothing when
    all 81 did, or passes on the exception the probe throws. *)
Theorem resolver_probes_in_order rt net x y h :
  nth_error (candidates x y) 0 = Some (x + 0, y + 0)%float
  /\ exists k,
       k <= 81
       /\ snd (getMarineWeatherNear rt net (Num x) (Num y) h)
          = h ++ probed rt x y k
       /\ (forall i, S i < k -> probe rt net x y h i = Ret None)
       /\ match fst (getMarineWeatherNear rt net (Num x) (Num y) h) with
          | Ret (Some m) =>
              exists j, k = S j /\ probe rt net x y h j = Ret (Some m)
          | Ret None =>
              k = 81 /\ forall i, i < 81 -> probe rt net x y h i = Ret None
          | Throw e => exists j, k = S j /\ probe rt net x y h j = Throw e
          end.
Proof. split; [reflexivity|apply resolver_spec]. Qed.

(** Near Hamburg the fifth candidate, half a degree to the west, is the
    first at sea: five probes, and its reading. *)
Example resolver_near_Hamburg :
  snd (getMarineWeatherNear sampleRuntime sampleServices (Num 53.5) (Num 10) [])
  = [MarineReq (js "53.5") (js "10"); MarineReq (js "53.5") (js "10.25");
     MarineReq (js "53.5") (js "9.75"); MarineReq (js "53.5") (js "10.5");
     MarineReq (js "53.5") (js "9.5")].
Proof. vm_compute. reflexivity. Qed.

(** When every probe reports nothing, so does the resolver, after all 81. *)
Lemma resolver_exhausted rt net x y h :
  (forall i, i < 81 -> probe rt net x y h i = Ret None) ->
  getMarineWeatherNear rt net (Num x) (Num y) h
  = (Ret None, h ++ probed rt x y 81).
Proof.
  intros Hall.
  destruct (resolver_spec rt net x y h) as [k [Hk [Hh [_ Ho]]]].
  destruct (getMarineWeatherNear rt net (Num x) (Num y) h) as [o h'].
  simpl in *. subst h'.
  destruct o as [[m|]|e].
  - destruct Ho as [j [-> Hj]]. rewrite Hall in Hj by lia. discriminate.
  - destruct Ho as [-> _]. reflexivity.
  - destruct Ho as [j [-> Hj]]. rewrite Hall in Hj by lia. discriminate.
Qed.

(* ================================================================== *)
(** * 15. The weather flow *)
(* ================================================================== *)

Lemma weatherFlow_after_resolver rt net placeName h h1 h2 p om :
  geocodePlace net placeName h = (Ret (Some p), h1) ->
  getMarineWeatherNear rt net (lat p) (lon p) h1 = (Ret om, h2) ->
  weatherFlow rt net placeName h =
  tryCatch
    (match om with
     | Some m => if usable m then lift (marineReply rt p m)
                 else landFallback rt net p
     | None => landFallback rt net p
     end)
    (fun _ => ret weatherError) h2.
Proof.
  intros G R. unfold weatherFlow, tryCatch, bind. rewrite G, R. reflexivity.
Qed.

Lemma getLandWeather_requests rt net x y h :
  snd (getLandWeather rt net (Num x) (Num y) h)
  = h ++ [LandReq (NumberToString rt x) (NumberToString rt y)].
Proof.
  unfold getLandWeather, bind, lift, fetch, jsonOf. simpl.
  destruct (net h _) as [|r]; [reflexivity|].
  destruct (ok r); simpl;
    [|unfold textOrEmpty, tryCatch, textOf; now destruct (text r)].
  destruct (json r); reflexivity.
Qed.

(** The land fallback asks the forecast service once, at the place. *)
Lemma landFallback_requests rt net p x y c h :
  lat p = Num x -> lon p = Num y ->
  snd (tryCatch (landFallback rt net p) (fun _ => ret c) h)
  = h ++ [LandReq (NumberToString rt x) (NumberToString rt y)].
Proof.
  intros Hx Hy. unfold tryCatch, landFallback, bind. rewrite Hx, Hy.
  pose proof (getLandWeather_requests rt net x y h) as L.
  destruct (getLandWeather rt net (Num x) (Num y) h) as [[land|e] h'];
    simpl in L; subst h'; [|reflexivity].
  destruct (truthy land); [|reflexivity].
  unfold lift. destruct (landReply rt p land); reflexivity.
Qed.

(** C3.  For every place the geocoder returns, with numeric latitude [x]
    and longitude [y]: when all 81 probes of the resolver report nothing,
    the weather flow goes on with exactly one more request, to the
    forecast service, at [x] and [y] themselves. *)
Theorem land_fallback_at_the_place rt net placeName h h1 p x y :
  geocodePlace net placeName h = (Ret (Some p), h1) ->
  lat p = Num x -> lon p = Num y ->
  (forall i, i < 81 -> probe rt net x y h1 i = Ret None) ->
  snd (weatherFlow rt net placeName h)
  = h1 ++ probed rt x y 81
       ++ [LandReq (NumberToString rt x) (NumberToString rt y)].
Proof.
  intros G Hx Hy Hall.
  pose proof (resolver_exhausted rt net x y h1 Hall) as R.
  rewrite <- Hx, <- Hy in R.
  rewrite (weatherFlow_after_resolver rt net placeName h h1 _ p None G R).
  rewrite (landFallback_requests rt net p x y weatherError _ Hx Hy).
  now rewrite <- app_assoc.
Qed.

Lemma land_fallback_at_the_place_witness :
  snd (weatherFlow sampleRuntime sampleServices (js "Kansas City") [])
  = [GeocodeReq (js "Kansas City")]
    ++ probed sampleRuntime 39 (-94.5) 81
    ++ [LandReq (js "39") (js "-94.5")].
Proof.
  apply (land_fallback_at_the_place sampleRuntime sampleServices
           (js "Kansas City") [] [GeocodeReq (js "Kansas City")]
           (placeAt (js "Kansas City") (js "United States") 39 (-94.5))
           39 (-94.5)).
  - vm_compute. reflexivity.
  - reflexivity.
  - reflexivity.
  - intros i Hi.
    do 81 (destruct i as [|i]; [vm_compute; reflexivity|]). lia.
Defined.

(** C2, as amended.  The probe may return a reading without wave height
    and wind speed; the weather flow formats a reading the resolver
    returns as the marine reply only when at least one of the two is not
    [null], and goes on to the land fallback otherwise. *)
Theorem marine_reply_needs_wave_or_wind rt net placeName h h1 h2 p m :
  geocodePlace net placeName h = (Ret (Some p), h1) ->
  getMarineWeatherNear rt net (lat p) (lon p) h1 = (Ret (Some m), h2) ->
  if nullish (wave m) && nullish (wind m)
  then weatherFlow rt net placeName h
       = tryCatch (landFallback rt net p) (fun _ => ret weatherError) h2
  else weatherFlow rt net placeName h
       = tryCatch (lift (marineReply rt p m)) (fun _ => ret weatherError) h2.
Proof.
  intros G R.
  rewrite (weatherFlow_after_resolver rt net placeName h h1 h2 p (Some m) G R).
  unfold usable.
  destruct (nullish (wave m)), (nullish (wind m)); reflexivity.
Qed.

Lemma marine_reply_needs_wave_or_wind_witness :
  weatherFlow sampleRuntime noSamples (js "Rotterdam") []
  = tryCatch
      (landFallback sampleRuntime noSamples
         (placeAt (js "Rotterdam") (js "Netherlands") 52 4.5))
      (fun _ => ret weatherError)
      [GeocodeReq (js "Rotterdam"); MarineReq (js "52") (js "4.5")].
Proof.
  apply (marine_reply_needs_wave_or_wind sampleRuntime noSamples
           (js "Rotterdam") [] [GeocodeReq (js "Rotterdam")]
           [GeocodeReq (js "Rotterdam"); MarineReq (js "52") (js "4.5")]
           (placeAt (js "Rotterdam") (js "Netherlands") 52 4.5)
           {| time := Str (js "2025-08-30T00:00");
              wave := Null; wind := Null; waveDir := Null;
              usedLat := Num 52; usedLon := Num 4.5 |});
    vm_compute; reflexivity.
Defined.

(** With such a reading near Rotterdam the reply is the land one. *)
Example weather_without_samples :
  exists tail,
    fst (weatherFlow sampleRuntime noSamples (js "Rotterdam") [])
    = Ret (js "🌍 Weather for **Rotterdam, Netherlands** (land fallback)"
           ++ tail).
Proof. eexists. vm_compute. reflexivity. Qed.

(* ................................................................ *)
(** ** The storm warning *)

Lemma endsWith_last (s p : jstring) (a b : N) :
  endsWith (s ++ [a]) (p ++ [b]) -> a = b.
Proof.
  intros [pre E]. rewrite app_assoc in E.
  apply app_inj_tail in E. tauto.
Qed.

Lemma coordinates_close rt la lo d g :
  coordinates rt la lo d = Ret g -> exists g', g = g' ++ [41%N].
Proof.
  unfold coordinates.
  destruct (callToFixed rt la d) as [a|]; [|discriminate].
  destruct (callToFixed rt lo d) as [b|]; [|discriminate].
  cbn [obind]. intros E. apply Ret_inj in E. subst g.
  exists (js "(" ++ a ++ js ", " ++ b).
  repeat rewrite <- app_assoc. reflexivity.
Qed.

(** A marine report ends with the closing parenthesis of its grid point. *)
Lemma marineReport_close rt p m s :
  marineReport rt p m = Ret s -> exists s', s = s' ++ [41%N].
Proof.
  unfold marineReport.
  destruct (show rt (name p)) as [n|]; [|discriminate].
  destruct (show rt (country p)) as [c|]; [|discriminate].
  destruct (show rt (time m)) as [t|]; [|discriminate].
  destruct (showOrNa rt (wave m) _) as [wv|]; [|discriminate].
  destruct (showOrNa rt (wind m) _) as [wd|]; [|discriminate].
  destruct (showOrNa rt (waveDir m) _) as [dir|]; [|discriminate].
  destruct (coordinates rt _ _ 2) as [g|] eqn:G; [|discriminate].
  cbn [obind]. intros E. apply Ret_inj in E. subst s.
  destruct (coordinates_close _ _ _ _ _ G) as [g' ->].
  eexists. repeat rewrite app_assoc. reflexivity.
Qed.

(** The alert ends with an exclamation mark. *)
Lemma stormWarning_bang : exists w, stormWarning = w ++ [33%N].
Proof. exists (removelast stormWarning). reflexivity. Qed.

Lemma hasSign_app a b : hasSign (a ++ b) = hasSign a || hasSign b.
Proof. apply existsb_app. Qed.

Lemma includes_sign s : includes s stormLine -> hasSign s = true.
Proof.
  intros [pre [post ->]]. rewrite !hasSign_app.
  replace (hasSign stormLine) with true by reflexivity.
  now rewrite orb_true_r.
Qed.

Lemma showOrNa_sign rt v unit t :
  showOrNa rt v unit = Ret t ->
  hasSign unit = false ->
  (forall t', show rt v = Ret t' -> hasSign t' = false) ->
  hasSign t = false.
Proof.
  unfold showOrNa. intros E U H.
  destruct (nullish v); cbn [negb] in E.
  - apply Ret_inj in E. now subst t.
  - destruct (show rt v) as [t'|]; [|discriminate].
    cbn [obind] in E. apply Ret_inj in E. subst t.
    rewrite hasSign_app, U, (H t' eq_refl). reflexivity.
Qed.

Lemma coordinates_sign rt la lo d g :
  coordinates rt la lo d = Ret g ->
  (forall t, callToFixed rt la d = Ret t -> hasSign t = false) ->
  (forall t, callToFixed rt lo d = Ret t -> hasSign t = false) ->
  hasSign g = false.
Proof.
  unfold coordinates. intros E Ha Hb.
  destruct (callToFixed rt la d) as [a|]; [|discriminate].
  destruct (callToFixed rt lo d) as [b|]; [|discriminate].
  cbn [obind] in E. apply Ret_inj in E. subst g.
  rewrite !hasSign_app, (Ha a eq_refl), (Hb b eq_refl). reflexivity.
Qed.

(** A report made of data without warning signs has none. *)
Lemma marineReport_sign rt p m s :
  marineReport rt p m = Ret s -> dataWithoutSign rt p m -> hasSign s = false.
Proof.
  unfold marineReport, dataWithoutSign. intros E D.
  destruct (show rt (name p)) as [n|] eqn:En; [|discriminate].
  destruct (show rt (country p)) as [c|] eqn:Ec; [|discriminate].
  destruct (show rt (time m)) as [t|] eqn:Et; [|discriminate].
  destruct (showOrNa rt (wave m) _) as [wv|] eqn:Ewv; [|discriminate].
  destruct (showOrNa rt (wind m) _) as [wd|] eqn:Ewd; [|discriminate].
  destruct (showOrNa rt (waveDir m) _) as [dir|] eqn:Edir; [|discriminate].
  destruct (coordinates rt _ _ 2) as [g|] eqn:G; [|discriminate].
  cbn [obind] in E. apply Ret_inj in E. subst s.
  assert (Hn : hasSign n = false) by (apply D; simpl; tauto).
  assert (Hc : hasSign c = false) by (apply D; simpl; tauto).
  assert (Ht : hasSign t = false) by (apply D; simpl; tauto).
  assert (Hwv : hasSign wv = false).
  { apply (showOrNa_sign _ _ _ _ Ewv); [reflexivity|].
    intros t' E'. apply D. rewrite <- E'. simpl. tauto. }
  assert (Hwd : hasSign wd = false).
  { apply (showOrNa_sign _ _ _ _ Ewd); [reflexivity|].
    intros t' E'. apply D. rewrite <- E'. simpl. tauto. }
  assert (Hdir : hasSign dir = false).
  { apply (showOrNa_sign _ _ _ _ Edir); [reflexivity|].
    intros t' E'. apply D. rewrite <- E'. simpl. tauto. }
  assert (Hg : hasSign g = false).
  { apply (coordinates_sign _ _ _ _ _ G);
      intros t' E'; apply D; rewrite <- E'; simpl; tauto. }
  rewrite !hasSign_app, Hn, Hc, Ht, Hwv, Hwd, Hdir, Hg. reflexivity.
Qed.

Lemma highWaves_iff (m : reading) : highWaves m = true <-> wavesAbove3 m.
Proof.
  unfold highWaves, wavesAbove3. split.
  - destruct (wave m); try discriminate. eauto.
  - intros [w [-> H]]. exact H.
Qed.

(** C5, as amended.  For every reading the weather flow formats: the
    reply ends with the storm-warning line exactly when the wave height is
    a number above 3.  Then the reply is the report followed by that line
    on a line of its own, and contains it; when the wave height is at most
    3, [null] or not a number, the reply is the report alone, with no line
    added, and it contains no storm-warning line provided the strings
    taken from the services and the engine (name, country, time, the
    values shown and the grid point) bring no warning sign of their own. *)
Theorem storm_warning_iff_high_waves rt p m s :
  marineReply rt p m = Ret s ->
  (wavesAbove3 m <-> endsWith s (nl ++ stormLine))
  /\ (wavesAbove3 m ->
      includes s stormLine
      /\ exists report, marineReport rt p m = Ret report
                        /\ s = report ++ nl ++ stormLine)
  /\ (~ wavesAbove3 m ->
      marineReport rt p m = Ret s
      /\ (dataWithoutSign rt p m -> ~ includes s stormLine)).
Proof.
  unfold marineReply. intros E.
  destruct (marineReport rt p m) as [report|] eqn:R; [|discriminate].
  cbn [obind] in E. apply Ret_inj in E. subst s.
  pose proof (highWaves_iff m) as HW.
  destruct (highWaves m) eqn:Hh.
  - assert (W : wavesAbove3 m) by now apply HW.
    split; [|split].
    + split; [|intros _; exact W]. intros _. now exists report.
    + intros _. split.
      * exists (report ++ nl), []. unfold stormWarning.
        now rewrite app_nil_r, <- app_assoc.
      * exists report. split; reflexivity.
    + intros N. contradiction.
  - assert (W : ~ wavesAbove3 m).
    { intros H. apply HW in H. discriminate. }
    rewrite app_nil_r.
    split; [|split].
    + split; [intros H; contradiction|]. intros H. exfalso.
      destruct (marineReport_close _ _ _ _ R) as [s' ->].
      destruct stormWarning_bang as [w Ew]. unfold stormWarning in Ew.
      rewrite Ew in H. apply endsWith_last in H. discriminate.
    + intros H. contradiction.
    + intros _. split; [reflexivity|]. intros D I.
      apply includes_sign in I.
      rewrite (marineReport_sign _ _ _ _ R D) in I. discriminate.
Qed.

Lemma storm_warning_iff_high_waves_witness :
  wavesAbove3
    {| time := Str (js "2025-08-30T00:00");
       wave := Num 3.5; wind := Num 18; waveDir := Null;
       usedLat := Num 53.5; usedLon := Num 9.5 |}
  <-> endsWith
        (js "🌊 Marine Weather for **Hamburg, Germany**" ++ nl
         ++ js "At 2025-08-30T00:00 (local):" ++ nl
         ++ js "• Wave height: 3.5 m" ++ nl
         ++ js "• Wind speed: 18 m/s" ++ nl
         ++ js "• Wave direction: n/a" ++ nl
         ++ js "• Grid used: (53.50, 9.50)" ++ nl
         ++ js "⚠️ Storm warning: High waves expected!")
        (nl ++ stormLine).
Proof.
  apply (storm_warning_iff_high_waves sampleRuntime
           (placeAt (js "Hamburg") (js "Germany") 53.5 10)).
  vm_compute. reflexivity.
Defined.

(** C5, as stated, fails: the reply copies the time of the reading (and
    the name of the place) as the services give them.  With waves of one
    metre and the text of the storm warning as the time of the sample, the
    reply of the handler contains the storm-warning line. *)
Lemma storm_line_without_high_waves :
  chat sampleRuntime warningInTime (say "weather at Rotterdam") []
  = (Ret ((js "🌊 Marine Weather for **Rotterdam, Netherlands**" ++ nl
           ++ js "At ")
          ++ stormLine
          ++ (js " (local):" ++ nl
              ++ js "• Wave height: 1 m" ++ nl
              ++ js "• Wind speed: 6.5 m/s" ++ nl
              ++ js "• Wave direction: 270°" ++ nl
              ++ js "• Grid used: (52.00, 4.50)")),
     [GeocodeReq (js "Rotterdam"); MarineReq (js "52") (js "4.5")])
  /\ includes
       ((js "🌊 Marine Weather for **Rotterdam, Netherlands**" ++ nl
         ++ js "At ")
        ++ stormLine
        ++ (js " (local):" ++ nl
            ++ js "• Wave height: 1 m" ++ nl
            ++ js "• Wind speed: 6.5 m/s" ++ nl
            ++ js "• Wave direction: 270°" ++ nl
            ++ js "• Grid used: (52.00, 4.50)"))
       stormLine.
Proof.
  split; [vm_compute; reflexivity|]. eexists _, _. reflexivity.
Qed.

(** Waves of exactly 3 metres raise no warning. *)
Example no_warning_at_3_metres :
  marineReply sampleRuntime
    (placeAt (js "Rotterdam") (js "Netherlands") 52 4.5)
    {| time := Str (js "2025-08-30T00:00");
       wave := Num 3; wind := Null; waveDir := Null;
       usedLat := Num 52; usedLon := Num 4.5 |}
  = Ret (js "🌊 Marine Weather for **Rotterdam, Netherlands**" ++ nl
         ++ js "At 2025-08-30T00:00 (local):" ++ nl
         ++ js "• Wave height: 3 m" ++ nl
         ++ js "• Wind speed: n/a" ++ nl
         ++ js "• Wave direction: n/a" ++ nl
         ++ js "• Grid used: (52.00, 4.50)").
Proof. vm_compute. reflexivity. Qed.

(* ================================================================== *)
(** * 16. Facts of binary64 arithmetic *)
(* ================================================================== *)

(** Rounding acts on the magnitude: the sign passes through. *)
Lemma SFopp_round_aux s m e l :
  SFopp (binary_round_aux prec emax s m e l)
  = binary_round_aux prec emax (negb s) m e l.
Proof.
  unfold binary_round_aux.
  destruct (shr_fexp prec emax m e l) as [mrs' e'].
  destruct (shr_fexp prec emax _ e' loc_Exact) as [mrs'' e''].
  destruct (shr_m mrs''); try reflexivity.
  destruct (e'' <=? emax - prec)%Z; reflexivity.
Qed.

Lemma SFopp_round s m e :
  SFopp (binary_round prec emax s m e) = binary_round prec emax (negb s) m e.
Proof.
  unfold binary_round. destruct (shl_align _ _ _) as [mz ez].
  apply SFopp_round_aux.
Qed.

Lemma SFopp_normalize m e :
  m <> 0%Z ->
  SFopp (binary_normalize prec emax m e false)
  = binary_normalize prec emax (- m) e false.
Proof.
  destruct m; simpl; intros H; [contradiction| |]; apply SFopp_round.
Qed.

Lemma mul_opp_l (x y : float) : (- x * y = - (x * y))%float.
Proof.
  apply Prim2SF_inj. rewrite opp_spec, !mul_spec, opp_spec.
  destruct (Prim2SF x) as [s|s| |s m e], (Prim2SF y) as [t|t| |t n f];
    simpl; try reflexivity; try (now destruct s, t).
  unfold SF64mul, SFmul. rewrite SFopp_round_aux. now destruct s, t.
Qed.

Lemma div_opp_l (x y : float) : (- x / y = - (x / y))%float.
Proof.
  apply Prim2SF_inj. rewrite opp_spec, !div_spec, opp_spec.
  destruct (Prim2SF x) as [s|s| |s m e], (Prim2SF y) as [t|t| |t n f];
    simpl; try reflexivity; try (now destruct s, t).
  unfold SF64div, SFdiv.
  destruct (SFdiv_core_binary prec emax _ e _ f) as [[mz ez] lz].
  rewrite SFopp_round_aux. now destruct s, t.
Qed.

Lemma mul_comm (x y : float) : (x * y = y * x)%float.
Proof.
  apply Prim2SF_inj. rewrite !mul_spec.
  destruct (Prim2SF x) as [s|s| |s m e], (Prim2SF y) as [t|t| |t n f];
    simpl; try reflexivity; try (now destruct s, t).
  unfold SF64mul, SFmul.
  now rewrite Pos.mul_comm, Z.add_comm, xorb_comm.
Qed.

(** Swapping the operands of a difference negates it, or leaves it as it
    is (a zero or NaN). *)
Lemma sub_swap (x y : float) :
  (y - x = - (x - y))%float \/ (y - x = x - y)%float.
Proof.
  assert (H : SF64sub (Prim2SF y) (Prim2SF x)
              = SFopp (SF64sub (Prim2SF x) (Prim2SF y))
              \/ SF64sub (Prim2SF y) (Prim2SF x)
                 = SF64sub (Prim2SF x) (Prim2SF y)).
  { destruct (Prim2SF x) as [s|s| |s m e], (Prim2SF y) as [t|t| |t n f];
      simpl; try (now left); try (now right);
      try (now destruct s, t; (now left) || (now right)).
    unfold SF64sub, SFsub. cbv zeta.
    rewrite (Z.min_comm f e).
    set (a := cond_Zopp s (Z.pos (fst (shl_align m e (Z.min e f))))).
    set (b := cond_Zopp t (Z.pos (fst (shl_align n f (Z.min e f))))).
    destruct (Z.eq_dec (a - b) 0) as [E|E].
    - right. replace (b - a)%Z with 0%Z by lia. now rewrite E.
    - left. rewrite SFopp_normalize by exact E. f_equal. lia. }
  destruct H as [H|H]; [left|right]; apply Prim2SF_inj.
  - now rewrite opp_spec, !sub_spec.
  - now rewrite !sub_spec.
Qed.

(** A finite number minus itself is [+0]. *)
Lemma sub_diag (x : float) : is_finite x = true -> (x - x = 0)%float.
Proof.
  intros F. apply Prim2SF_inj. rewrite sub_spec.
  unfold is_finite, is_nan, is_infinity in F.
  rewrite !eqb_spec, abs_spec in F.
  destruct (Prim2SF x) as [s|s| |s m e] eqn:E; simpl in F.
  - now destruct s.
  - now destruct s.
  - discriminate.
  - unfold SF64sub, SFsub. cbv zeta.
    now rewrite Z.sub_diag.
Qed.

(* ................................................................ *)
(** ** The square of a number of magnitude at most one *)

Lemma shr_1_bound (r : shr_record) :
  (0 <= shr_m r -> 0 <= shr_m (shr_1 r) <= shr_m r)%Z.
Proof.
  destruct r as [m r s]. simpl.
  destruct m as [|p|p]; simpl; try lia.
  destruct p; simpl; lia.
Qed.

Lemma iter_shr_1_bound (p : positive) : forall r : shr_record,
  (0 <= shr_m r -> 0 <= shr_m (iter_pos shr_1 p r) <= shr_m r)%Z.
Proof.
  induction p as [p IH|p IH|]; intros r H; simpl.
  - pose proof (shr_1_bound r H) as H1.
    pose proof (IH _ (proj1 H1)) as H2.
    pose proof (IH _ (proj1 H2)) as H3. lia.
  - pose proof (IH _ H) as H2.
    pose proof (IH _ (proj1 H2)) as H3. lia.
  - apply shr_1_bound, H.
Qed.

Lemma shr_record_of_loc_m m l : shr_m (shr_record_of_loc m l) = m.
Proof. destruct l as [|[ | | ]]; reflexivity. Qed.

(** Shifting to the target exponent keeps the mantissa between zero and
    what it was, and the exponent below the larger of the old and the
    target one. *)
Lemma shr_fexp_bound m e l :
  (0 <= m)%Z ->
  (0 <= shr_m (fst (shr_fexp prec emax m e l)) <= m)%Z
  /\ (snd (shr_fexp prec emax m e l)
      <= Z.max e (fexp prec emax (Zdigits2 m + e)))%Z.
Proof.
  intros H. unfold shr_fexp, shr.
  destruct (fexp prec emax (Zdigits2 m + e) - e)%Z as [|p|p] eqn:E; simpl;
    rewrite ?shr_record_of_loc_m; try lia.
  pose proof (iter_shr_1_bound p (shr_record_of_loc m l)) as B.
  rewrite shr_record_of_loc_m in B. specialize (B H). lia.
Qed.

Lemma digits2_pos_bounds (p : positive) :
  (2 ^ (Z.pos (digits2_pos p) - 1) <= Z.pos p < 2 ^ Z.pos (digits2_pos p))%Z.
Proof.
  induction p as [p IH|p IH|]; simpl digits2_pos.
  - rewrite Pos2Z.inj_succ, Z.pow_succ_r by lia.
    replace (Z.succ (Z.pos (digits2_pos p)) - 1)%Z
      with (Z.succ (Z.pos (digits2_pos p) - 1)) by lia.
    rewrite Z.pow_succ_r by lia. lia.
  - rewrite Pos2Z.inj_succ, Z.pow_succ_r by lia.
    replace (Z.succ (Z.pos (digits2_pos p)) - 1)%Z
      with (Z.succ (Z.pos (digits2_pos p) - 1)) by lia.
    rewrite Z.pow_succ_r by lia. lia.
  - simpl. lia.
Qed.

Lemma Zdigits2_le (z k : Z) :
  (0 <= z -> 0 <= k -> z < 2 ^ k -> Zdigits2 z <= k)%Z.
Proof.
  intros Hz Hk H. destruct z as [|p|p]; simpl; try lia.
  pose proof (digits2_pos_bounds p) as [L _].
  destruct (Z_le_gt_dec (Z.pos (digits2_pos p)) k) as [|G]; [assumption|].
  assert (2 ^ k <= 2 ^ (Z.pos (digits2_pos p) - 1))%Z
    by (apply Z.pow_le_mono_r; lia).
  lia.
Qed.

Lemma Zdigits2_gt (z : Z) : (0 <= z -> z < 2 ^ Zdigits2 z)%Z.
Proof.
  intros Hz. destruct z as [|p|p]; simpl; try lia.
  apply digits2_pos_bounds.
Qed.

Lemma Zdigits2_nonneg (z : Z) : (0 <= Zdigits2 z)%Z.
Proof. destruct z; simpl; lia. Qed.

Lemma round_nearest_even_bound m l :
  (m <= round_nearest_even m l <= m + 1)%Z.
Proof.
  destruct l as [|[ | | ]]; simpl; try lia.
  destruct (Z.even m); lia.
Qed.

(** Rounding a small magnitude does not overflow. *)
Lemma round_aux_small s M E l :
  (0 <= M)%Z -> (Zdigits2 M <= 106)%Z -> (E <= -104)%Z ->
  binary_round_aux prec emax s M E l = S754_zero s
  \/ exists m e, binary_round_aux prec emax s M E l = S754_finite s m e.
Proof.
  intros HM HD HE. unfold binary_round_aux.
  pose proof (shr_fexp_bound M E l HM) as [B1 B2].
  destruct (shr_fexp prec emax M E l) as [mrs' e']. simpl in B1, B2.
  set (mr := round_nearest_even (shr_m mrs') (loc_of_shr_record mrs')).
  pose proof (round_nearest_even_bound (shr_m mrs') (loc_of_shr_record mrs'))
    as Br. fold mr in Br.
  assert (Hr : (0 <= mr)%Z) by lia.
  pose proof (shr_fexp_bound mr e' loc_Exact Hr) as [C1 C2].
  destruct (shr_fexp prec emax mr e' loc_Exact) as [mrs'' e'']. simpl in C1, C2.
  assert (Dr : (Zdigits2 mr <= 107)%Z).
  { apply Zdigits2_le; try lia.
    pose proof (Zdigits2_gt M HM) as G.
    assert (2 ^ Zdigits2 M <= 2 ^ 106)%Z
      by (apply Z.pow_le_mono_r; [lia|exact HD]).
    change (2 ^ 107)%Z with (2 * 2 ^ 106)%Z. lia. }
  unfold fexp, emin, prec, emax in *.
  destruct (shr_m mrs'') as [|m|m]; [now left| |lia].
  right. replace (e'' <=? 1024 - 53)%Z with true by (symmetry; apply Z.leb_le; lia).
  eauto.
Qed.

Lemma Prim2SF_one : Prim2SF 1 = S754_finite false 4503599627370496 (-52).
Proof. reflexivity. Qed.

(** The square of a number of magnitude at most one, times [+0], is
    [+0]. *)
Lemma square_times_zero (c : float) :
  (abs c <=? 1)%float = true -> (c * c * 0 = 0)%float.
Proof.
  intros H. rewrite leb_spec, abs_spec, Prim2SF_one in H.
  pose proof (Prim2SF_valid c) as V.
  apply Prim2SF_inj. rewrite !mul_spec.
  destruct (Prim2SF c) as [s|s| |s m e]; simpl in H; try discriminate.
  - now destruct s.
  - unfold SFleb, SFcompare in H.
    assert (He : (e <= -52)%Z).
    { destruct (Z.compare_spec e (-52)); [lia|lia|discriminate]. }
    unfold valid_binary, bounded, canonical_mantissa in V.
    apply andb_true_iff in V as [V _]. apply Z.eqb_eq in V.
    unfold fexp, emin, prec, emax in V.
    assert (Hd : (Z.pos (digits2_pos m) <= 53)%Z) by lia.
    change (SF64mul (S754_finite s m e) (S754_finite s m e))
      with (binary_round_aux prec emax (xorb s s) (Z.pos (m * m)) (e + e)
              loc_Exact).
    replace (xorb s s) with false by now destruct s.
    destruct (round_aux_small false (Z.pos (m * m)) (e + e) loc_Exact)
      as [Z|[m' [e' F]]]; try lia.
    + apply Zdigits2_le; try lia.
      pose proof (digits2_pos_bounds m) as [_ U].
      assert (2 ^ Z.pos (digits2_pos m) <= 2 ^ 53)%Z
        by (apply Z.pow_le_mono_r; lia).
      change (2 ^ 106)%Z with (2 ^ 53 * 2 ^ 53)%Z.
      rewrite Pos2Z.inj_mul. nia.
    + rewrite Z. reflexivity.
    + rewrite F. reflexivity.
Qed.

Lemma opp_involutive (x : float) : (- - x = x)%float.
Proof.
  apply Prim2SF_inj. rewrite !opp_spec.
  destruct (Prim2SF x) as [s|s| |s m e]; simpl; now rewrite ?negb_involutive.
Qed.

Lemma mul_opp_opp (x : float) : (- x * - x = x * x)%float.
Proof.
  now rewrite mul_opp_l, (mul_comm x), mul_opp_l, opp_involutive.
Qed.

(* ================================================================== *)
(** * 17. The distance *)
(* ================================================================== *)

(** On numeric coordinates [greatCircleNm] is the haversine formula. *)
Lemma greatCircleNm_haversine rt a b x1 y1 x2 y2 :
  lat a = Num x1 -> lon a = Num y1 -> lat b = Num x2 -> lon b = Num y2 ->
  greatCircleNm rt a b = Ret (haversineNm rt x1 y1 x2 y2).
Proof.
  intros A1 A2 B1 B2. unfold greatCircleNm. rewrite A1, A2, B1, B2.
  reflexivity.
Qed.

Lemma haversineNm_halfAngle rt x1 y1 x2 y2 :
  haversineNm rt x1 y1 x2 y2 =
  (2 * 6371
   * Math_asin rt
       (Math_min 1
          (sqrt (halfAngle rt (x2 - x1)
                 + Math_cos rt (radians x1) * Math_cos rt (radians x2)
                   * halfAngle rt (y2 - y1))))
   * 0.539957)%float.
Proof. reflexivity. Qed.

Section Symmetry.
Variable rt : runtime.

(** What symmetry asks of the engine: its sine is odd, and a square does
    not see the sign. *)
Hypothesis sin_odd : forall x, Math_sin rt (- x) = (- Math_sin rt x)%float.
Hypothesis square_even :
  forall x, exponentiate rt (- x) 2 = exponentiate rt x 2.

Lemma halfAngle_opp d : halfAngle rt (- d) = halfAngle rt d.
Proof.
  unfold halfAngle, radians.
  now rewrite mul_opp_l, !div_opp_l, sin_odd, square_even.
Qed.

Lemma halfAngle_swap x y :
  halfAngle rt (y - x) = halfAngle rt (x - y).
Proof.
  destruct (sub_swap x y) as [E|E]; rewrite E; [|reflexivity].
  apply halfAngle_opp.
Qed.

Lemma haversineNm_sym x1 y1 x2 y2 :
  haversineNm rt x1 y1 x2 y2 = haversineNm rt x2 y2 x1 y1.
Proof.
  rewrite !haversineNm_halfAngle.
  rewrite (halfAngle_swap x1 x2), (halfAngle_swap y1 y2).
  now rewrite (mul_comm (Math_cos rt (radians x1))).
Qed.
End Symmetry.

(** C8.  For every two points with numeric coordinates,
    [greatCircleNm(A, B)] and [greatCircleNm(B, A)] are the same number,
    on every engine whose [Math.sin] is odd and whose [x ** 2] does not
    depend on the sign of [x]. *)
Theorem greatCircleNm_symmetric rt a b x1 y1 x2 y2 :
  (forall x, Math_sin rt (- x) = (- Math_sin rt x)%float) ->
  (forall x, exponentiate rt (- x) 2 = exponentiate rt x 2) ->
  lat a = Num x1 -> lon a = Num y1 -> lat b = Num x2 -> lon b = Num y2 ->
  greatCircleNm rt a b = greatCircleNm rt b a.
Proof.
  intros S E A1 A2 B1 B2.
  rewrite (greatCircleNm_haversine rt a b x1 y1 x2 y2 A1 A2 B1 B2).
  rewrite (greatCircleNm_haversine rt b a x2 y2 x1 y1 B1 B2 A1 A2).
  f_equal. now apply haversineNm_sym.
Qed.

Lemma greatCircleNm_symmetric_witness :
  greatCircleNm sampleRuntime
    (placeAt (js "Mumbai") (js "India") 19 72.875)
    (placeAt (js "Singapore") (js "Singapore") 1.25 103.75)
  = greatCircleNm sampleRuntime
      (placeAt (js "Singapore") (js "Singapore") 1.25 103.75)
      (placeAt (js "Mumbai") (js "India") 19 72.875).
Proof.
  apply (greatCircleNm_symmetric sampleRuntime _ _ 19 72.875 1.25 103.75).
  - reflexivity.
  - intros x. simpl. apply mul_opp_opp.
  - reflexivity.
  - reflexivity.
  - reflexivity.
  - reflexivity.
Defined.

Lemma halfAngle_zero rt :
  Math_sin rt 0 = 0%float -> exponentiate rt 0 2 = 0%float ->
  halfAngle rt 0 = 0%float.
Proof.
  intros S E. unfold halfAngle.
  replace (radians 0 / 2)%float with 0%float by reflexivity.
  now rewrite S, E.
Qed.

Lemma haversineNm_diag rt x y :
  Math_sin rt 0 = 0%float ->
  exponentiate rt 0 2 = 0%float ->
  Math_asin rt 0 = 0%float ->
  is_finite x = true -> is_finite y = true ->
  (abs (Math_cos rt (radians x)) <=? 1)%float = true ->
  haversineNm rt x y x y = 0%float.
Proof.
  intros S E A Fx Fy C.
  rewrite haversineNm_halfAngle, (sub_diag x Fx), (sub_diag y Fy).
  rewrite (halfAngle_zero rt S E), (square_times_zero _ C).
  replace (Math_min 1 (sqrt (0 + 0)))%float with 0%float by reflexivity.
  rewrite A. reflexivity.
Qed.

(** C9.  For every point with finite numeric coordinates,
    [greatCircleNm(A, A)] is [+0], on every engine that maps [+0] to [+0]
    in [Math.sin], [Math.asin] and [x ** 2] (as ECMA-262 requires) and
    whose [Math.cos] of the latitude is a number of magnitude at most 1. *)
Theorem greatCircleNm_reflexive rt a x y :
  Math_sin rt 0 = 0%float ->
  exponentiate rt 0 2 = 0%float ->
  Math_asin rt 0 = 0%float ->
  lat a = Num x -> lon a = Num y ->
  is_finite x = true -> is_finite y = true ->
  (abs (Math_cos rt (radians x)) <=? 1)%float = true ->
  greatCircleNm rt a a = Ret 0%float.
Proof.
  intros S E A Hx Hy Fx Fy C.
  rewrite (greatCircleNm_haversine rt a a x y x y Hx Hy Hx Hy).
  f_equal. now apply haversineNm_diag.
Qed.

Lemma greatCircleNm_reflexive_witness :
  greatCircleNm sampleRuntime (placeAt (js "Mumbai") (js "India") 19 72.875)
                (placeAt (js "Mumbai") (js "India") 19 72.875)
  = Ret 0%float.
Proof.
  apply (greatCircleNm_reflexive sampleRuntime _ 19 72.875);
    vm_compute; reflexivity.
Defined.

(* ................................................................ *)
(** ** The distance reply *)


Example Math_round_samples :
  map Math_round [2.5; -2.5; 0.49999999999999994; 2434.7; -7.5; -7.51]%float
  = [3; -2; 0; 2435; -7; -8]%float.
Proof. vm_compute. reflexivity. Qed.


(* ................................................................ *)
(** ** Integers as floats, and [Math.round] *)













(** The distance of the sample places is 2138.257...: the float
    [4702077491342951 * 2^-41]. *)
Example haversine_sample_value :
  valueOf (haversineNm sampleRuntime 19 72.875 1.25 103.75)
  = Some (Qmake 4702077491342951 (Z.to_pos (2 ^ 41))).
Proof. vm_compute. reflexivity. Qed.



(* ================================================================== *)
(** * 18. The handler on the sample services *)
(* ================================================================== *)

Example chat_distance :
  chat sampleRuntime sampleServices (say "distance Mumbai to Singapore") []
  = (Ret (js "📏 Great-circle distance:" ++ nl
          ++ js "• Mumbai, India (19.000, 72.875)" ++ nl
          ++ js "→ Singapore, Singapore (1.250, 103.750)" ++ nl
          ++ js "= **2138 nautical miles** (approx., rhumb lines not included)."),
     [GeocodeReq (js "Mumbai"); GeocodeReq (js "Singapore")]).
Proof. vm_compute. reflexivity. Qed.

Example chat_weather_at_sea :
  chat sampleRuntime sampleServices (say "weather at Rotterdam") []
  = (Ret (js "🌊 Marine Weather for **Rotterdam, Netherlands**" ++ nl
          ++ js "At 2025-08-30T00:00 (local):" ++ nl
          ++ js "• Wave height: 1.2 m" ++ nl
          ++ js "• Wind speed: 6.5 m/s" ++ nl
          ++ js "• Wave direction: 270°" ++ nl
          ++ js "• Grid used: (52.00, 4.50)"),
     [GeocodeReq (js "Rotterdam"); MarineReq (js "52") (js "4.5")]).
Proof. vm_compute. reflexivity. Qed.

Example chat_weather_inland :
  fst (chat sampleRuntime sampleServices (say "weather at Kansas City") [])
  = Ret (js "🌍 Weather for **Kansas City, United States** (land fallback)"
         ++ nl ++ js "• Temperature: 21 °C"
         ++ nl ++ js "• Windspeed: 9 km/h"
         ++ nl ++ js "• Wind direction: 180°"
         ++ nl ++ js "• Time: 2025-08-30T12:00"
         ++ nl ++ js "• Note: Marine grid not available right at this point; moved to land weather.").
Proof. vm_compute. reflexivity. Qed.

Example chat_unknown_place :
  chat sampleRuntime sampleServices (say "weather in Atlantis") []
  = (Ret (js "I couldn’t find " ++ dquote ++ js "Atlantis" ++ dquote
          ++ js ". Try another port/city."),
     [GeocodeReq (js "Atlantis")]).
Proof. vm_compute. reflexivity. Qed.

Example chat_echo :
  chat sampleRuntime sampleServices (say "hello there") []
  = (Ret (js "You asked: " ++ dquote ++ js "hello there" ++ dquote
          ++ js ". This is a test response from backend."), []).
Proof. vm_compute. reflexivity. Qed.

Example chat_services_down :
  chat sampleRuntime deadServices (say "weather at Rotterdam") []
  = (Ret weatherError, [GeocodeReq (js "Rotterdam")]).
Proof. vm_compute. reflexivity. Qed.

(* ================================================================== *)
(** * 19. The requests of a turn *)
(* ================================================================== *)

Lemma atMost_weaken {A} n n' (m : M A) : n <= n' -> atMost n m -> atMost n' m.
Proof.
  intros L H h. destruct (H h) as [t [E B]]. exists t. split; [exact E|lia].
Qed.

Lemma atMost_ret {A} (a : A) : atMost 0 (ret a).
Proof. intros h. exists []. now rewrite app_nil_r. Qed.

Lemma atMost_throw {A} e : atMost 0 (@throw A e).
Proof. intros h. exists []. now rewrite app_nil_r. Qed.

Lemma atMost_lift {A} (o : outcome A) : atMost 0 (lift o).
Proof. intros h. exists []. now rewrite app_nil_r. Qed.

Lemma atMost_fetch net q : atMost 1 (fetch net q).
Proof.
  intros h. exists [q]. unfold fetch. destruct (net h q); auto.
Qed.

Lemma atMost_bind {A B} n1 n2 (m : M A) (k : A -> M B) :
  atMost n1 m -> (forall a, atMost n2 (k a)) -> atMost (n1 + n2) (bind m k).
Proof.
  intros H1 H2 h. unfold bind. destruct (H1 h) as [t1 [E1 B1]].
  destruct (m h) as [[a|e] h1]; simpl in E1; subst h1.
  - destruct (H2 a (h ++ t1)) as [t2 [E2 B2]].
    exists (t1 ++ t2). rewrite E2, app_assoc, length_app. split; [reflexivity|lia].
  - exists t1. simpl. split; [reflexivity|lia].
Qed.

Lemma atMost_tryCatch {A} n1 n2 (m : M A) (k : exn -> M A) :
  atMost n1 m -> (forall e, atMost n2 (k e)) ->
  atMost (n1 + n2) (tryCatch m k).
Proof.
  intros H1 H2 h. unfold tryCatch. destruct (H1 h) as [t1 [E1 B1]].
  destruct (m h) as [[a|e] h1]; simpl in E1; subst h1.
  - exists t1. simpl. split; [reflexivity|lia].
  - destruct (H2 e (h ++ t1)) as [t2 [E2 B2]].
    exists (t1 ++ t2). rewrite E2, app_assoc, length_app. split; [reflexivity|lia].
Qed.

Lemma atMost_all2 {A B} n1 n2 (m1 : M A) (m2 : M B) :
  atMost n1 m1 -> atMost n2 m2 -> atMost (n1 + n2) (all2 m1 m2).
Proof.
  intros H1 H2 h. unfold all2. destruct (H1 h) as [t1 [E1 B1]].
  destruct (m1 h) as [o1 h1]; simpl in E1; subst h1.
  destruct (H2 (h ++ t1)) as [t2 [E2 B2]].
  destruct (m2 (h ++ t1)) as [o2 h2]; simpl in E2; subst h2.
  exists (t1 ++ t2). simpl. rewrite app_assoc, length_app. split; [reflexivity|lia].
Qed.

Lemma atMost_forOf {A B} n (xs : list A) (body : A -> M (option B)) :
  (forall x, atMost n (body x)) -> atMost (length xs * n) (forOf xs body).
Proof.
  intros H. induction xs as [|x xs IH]; simpl.
  - apply atMost_ret.
  - apply atMost_bind; [apply H|].
    intros [b|]; [|exact IH].
    apply (atMost_weaken 0); [lia|apply atMost_ret].
Qed.

Lemma atMost_jsonOf r : atMost 0 (jsonOf r).
Proof. unfold jsonOf. destruct (json r); [apply atMost_ret|apply atMost_throw]. Qed.

Lemma atMost_textOrEmpty r : atMost 0 (textOrEmpty r).
Proof.
  unfold textOrEmpty, textOf.
  apply (atMost_tryCatch 0 0).
  - destruct (text r); [apply atMost_ret|apply atMost_throw].
  - intros e. apply atMost_ret.
Qed.

Lemma atMost_geocodePlace net n : atMost 1 (geocodePlace net n).
Proof.
  unfold geocodePlace. destruct (negb (wellFormed n)).
  - apply (atMost_weaken 0); [lia|apply atMost_throw].
  - apply (atMost_bind 1 0); [apply atMost_fetch|]. intros r.
    destruct (negb (ok r)); [apply atMost_ret|].
    apply (atMost_bind 0 0); [apply atMost_jsonOf|]. intros data.
    destruct (negb _); apply atMost_ret.
Qed.

Lemma atMost_tryMarine rt net la lo : atMost 1 (tryMarine rt net la lo).
Proof.
  unfold tryMarine.
  apply (atMost_bind 0 1); [apply atMost_lift|]. intros slat.
  apply (atMost_bind 0 1); [apply atMost_lift|]. intros slon.
  apply (atMost_bind 1 0); [apply atMost_fetch|]. intros r.
  destruct (negb (ok r)).
  - apply (atMost_bind 0 0); [apply atMost_textOrEmpty|]. intros _.
    apply atMost_ret.
  - apply (atMost_bind 0 0); [apply atMost_jsonOf|]. intros data.
    destruct (_ || _); apply atMost_ret.
Qed.

Lemma atMost_resolver rt net la lo :
  atMost 81 (getMarineWeatherNear rt net la lo).
Proof.
  unfold getMarineWeatherNear.
  change 81 with (length offsets * (length offsets * 1)).
  apply atMost_forOf. intros dlat. apply atMost_forOf. intros dlon.
  apply (atMost_bind 0 1); [apply atMost_lift|]. intros a.
  apply (atMost_bind 0 1); [apply atMost_lift|]. intros b.
  apply atMost_tryMarine.
Qed.

Lemma atMost_getLandWeather rt net la lo :
  atMost 1 (getLandWeather rt net la lo).
Proof.
  unfold getLandWeather.
  apply (atMost_bind 0 1); [apply atMost_lift|]. intros slat.
  apply (atMost_bind 0 1); [apply atMost_lift|]. intros slon.
  apply (atMost_bind 1 0); [apply atMost_fetch|]. intros r.
  destruct (negb (ok r)).
  - apply (atMost_bind 0 0); [apply atMost_textOrEmpty|]. intros _.
    apply atMost_ret.
  - apply (atMost_bind 0 0); [apply atMost_jsonOf|]. intros data.
    apply atMost_ret.
Qed.

Lemma atMost_landFallback rt net p : atMost 1 (landFallback rt net p).
Proof.
  unfold landFallback.
  apply (atMost_bind 1 0); [apply atMost_getLandWeather|]. intros land.
  destruct (truthy land); [apply atMost_lift|apply atMost_ret].
Qed.

Lemma atMost_distanceFlow rt net a b : atMost 2 (distanceFlow rt net a b).
Proof.
  unfold distanceFlow.
  apply (atMost_tryCatch 2 0); [|intros e; apply atMost_ret].
  apply (atMost_bind 2 0).
  - apply (atMost_all2 1 1); apply atMost_geocodePlace.
  - intros [[from|] [to|]]; try apply atMost_ret. apply atMost_lift.
Qed.

Lemma atMost_weatherFlow rt net a : atMost 83 (weatherFlow rt net a).
Proof.
  unfold weatherFlow.
  apply (atMost_tryCatch 83 0); [|intros e; apply atMost_ret].
  apply (atMost_bind 1 82); [apply atMost_geocodePlace|].
  intros [p|]; [|apply (atMost_weaken 0); [lia|apply atMost_ret]].
  apply (atMost_bind 81 1); [apply atMost_resolver|].
  intros [m|]; [|apply atMost_landFallback].
  destruct (usable m); [|apply atMost_landFallback].
  apply (atMost_weaken 0); [lia|apply atMost_lift].
Qed.

(** X1.  For every request body and every behaviour of the services, one turn of
    [POST /chat] only adds to the requests made before it, and adds at
    most 83: one to the geocoder, the 81 probes of the marine service and
    one to the forecast service (two to the geocoder in the distance
    flow). *)
Theorem chat_request_budget rt net body :
  atMost 83 (chat rt net body).
Proof.
  unfold chat.
  apply (atMost_bind 0 83); [apply atMost_lift|]. intros message.
  destruct message as [|c m]; [apply (atMost_weaken 0); [lia|apply atMost_ret]|].
  destruct (exec distancePattern (c :: m)).
  - apply (atMost_weaken 2); [lia|apply atMost_distanceFlow].
  - destruct (exec weatherPattern (c :: m)).
    + apply atMost_weatherFlow.
    + apply (atMost_weaken 0); [lia|apply atMost_ret].
Qed.

(* ================================================================== *)
(** * 20. What the patterns match *)
(* ================================================================== *)

Section Quantifier.
Variable R : Type.
Variable p : N -> bool.

Lemma starGreedy_sound (s : jstring) (k : jstring -> option R) c :
  starGreedy R p s k = Some c ->
  exists pre s', s = pre ++ s' /\ forallb p pre = true /\ k s' = Some c.
Proof.
  induction s as [|a s IH]; simpl; intros H.
  - exists [], []. auto.
  - destruct (p a) eqn:Pa.
    + destruct (starGreedy R p s k) as [r|] eqn:G.
      * destruct (IH H) as [pre [s' [-> [F K]]]].
        exists (a :: pre), s'. simpl. rewrite Pa, F. auto.
      * exists [], (a :: s). auto.
    + exists [], (a :: s). auto.
Qed.

Lemma starLazy_sound (s : jstring) (k : jstring -> option R) c :
  starLazy R p s k = Some c ->
  exists pre s', s = pre ++ s' /\ forallb p pre = true /\ k s' = Some c.
Proof.
  induction s as [|a s IH]; simpl; intros H.
  - destruct (k []) eqn:K; [|discriminate]. exists [], []. rewrite K. auto.
  - destruct (k (a :: s)) eqn:K.
    + exists [], (a :: s). rewrite K. auto.
    + destruct (p a) eqn:Pa; [|discriminate].
      destruct (IH H) as [pre [s' [-> [F K']]]].
      exists (a :: pre), s'. simpl. rewrite Pa, F. auto.
Qed.

Lemma plusWith_sound star (s : jstring) (k : jstring -> option R) c :
  (forall s k c, star s k = Some c ->
     exists pre s', s = pre ++ s' /\ forallb p pre = true /\ k s' = Some c) ->
  plusWith R p star s k = Some c ->
  exists pre s', s = pre ++ s' /\ run p pre /\ k s' = Some c.
Proof.
  intros S. unfold plusWith. destruct s as [|a s]; [discriminate|].
  destruct (p a) eqn:Pa; [|discriminate]. intros H.
  destruct (S _ _ _ H) as [pre [s' [-> [F K]]]].
  exists (a :: pre), s'. repeat split; auto; [discriminate|].
  simpl. now rewrite Pa.
Qed.
End Quantifier.

Lemma firstn_capture (pre s' : jstring) :
  firstn (length (pre ++ s') - length s') (pre ++ s') = pre.
Proof.
  rewrite length_app. replace (length pre + length s' - length s')
    with (length pre + 0) by lia.
  rewrite firstn_app_2. simpl. apply app_nil_r.
Qed.

(** What a successful match hands to its continuation: a suffix of the
    input, and the captures so far with those of the groups passed. *)
Ltac matched :=
  rewrite ?app_nil_r;
  repeat match goal with
         | |- _ /\ _ => split
         | |- Forall _ [] => constructor
         | |- Forall _ [_] => constructor
         end; auto.

Lemma rmatch_sound p r : groupsOf p r ->
  forall s caps k c,
    rmatch r s caps k = Some c ->
    exists pre s' new,
      s = pre ++ s' /\ Forall (run p) new /\ k s' (caps ++ new) = Some c.
Proof.
  induction r as [q|r1 IH1 r2 IH2|r1 IH1 r2 IH2|q|q|r1 IH1|];
    simpl; intros G s caps k c H.
  - destruct s as [|a s]; [discriminate|].
    destruct (q a); [|discriminate].
    exists [a], s, []. matched.
  - destruct G as [G1 G2].
    destruct (IH1 G1 _ _ _ _ H) as [pre1 [s1 [new1 [-> [F1 K1]]]]].
    destruct (IH2 G2 _ _ _ _ K1) as [pre2 [s2 [new2 [-> [F2 K2]]]]].
    exists (pre1 ++ pre2), s2, (new1 ++ new2).
    rewrite <- !app_assoc in *. split; [reflexivity|].
    split; [now apply Forall_app|exact K2].
  - destruct G as [G1 G2].
    destruct (rmatch r1 s caps k) as [c1|] eqn:E1.
    + injection H as <-. now apply (IH1 G1 _ _ _ _ E1).
    + now apply (IH2 G2 _ _ _ _ H).
  - destruct (plusWith_sound _ q _ s _ c (starGreedy_sound _ q) H)
      as [pre [s' [-> [_ K]]]].
    exists pre, s', []. matched.
  - destruct (plusWith_sound _ q _ s _ c (starLazy_sound _ q) H)
      as [pre [s' [-> [_ K]]]].
    exists pre, s', []. matched.
  - destruct G as [-> | ->]; simpl in H.
    + destruct (plusWith_sound _ p _ s _ c (starGreedy_sound _ p) H)
        as [pre [s' [-> [Rn K]]]].
      rewrite firstn_capture in K. exists pre, s', [pre]. matched.
    + destruct (plusWith_sound _ p _ s _ c (starLazy_sound _ p) H)
        as [pre [s' [-> [Rn K]]]].
      rewrite firstn_capture in K. exists pre, s', [pre]. matched.
  - destruct s; [|discriminate]. exists [], [], []. matched.
Qed.

(** [exec] matches at a suffix of the input. *)
Lemma exec_sound r s c :
  exec r s = Some c ->
  exists pre s', s = pre ++ s' /\ rmatch r s' [] (fun _ c => Some c) = Some c.
Proof.
  induction s as [|a s IH]; simpl.
  - destruct (rmatch r [] [] _) eqn:E; [|discriminate].
    intros H. injection H as <-. exists [], []. auto.
  - destruct (rmatch r (a :: s) [] _) eqn:E.
    + intros H. injection H as <-. exists [], (a :: s). auto.
    + intros H. destruct (IH H) as [pre [s' [-> M]]].
      exists (a :: pre), s'. auto.
Qed.

(** The captures of a match are runs of the class of its groups. *)
Lemma exec_captures p r s c :
  groupsOf p r -> exec r s = Some c -> Forall (run p) c.
Proof.
  intros G H. destruct (exec_sound _ _ _ H) as [pre [s' [-> M]]].
  destruct (rmatch_sound p r G _ _ _ _ M) as [_ [_ [new [_ [F K]]]]].
  simpl in K. injection K as <-. exact F.
Qed.

(** A pattern that ends with [(c+)$] matches only inputs that end with a
    run of [c]. *)
Lemma rmatch_tail p r : endsWithGroup p r ->
  forall s caps k c,
    rmatch r s caps k = Some c ->
    exists pre s', s = pre ++ s' /\ run p s'.
Proof.
  induction r as [q|r1 IH1 r2 IH2|r1 IH1 r2 IH2|q|q|r1 IH1|];
    simpl; try contradiction.
  intros E s caps k c H.
  assert (Tail : forall q, r1 = Group (Plus q) -> r2 = Eoi -> q = p ->
                 exists pre s', s = pre ++ s' /\ run p s').
  { intros q -> -> ->. simpl in H.
    destruct (plusWith_sound _ p _ s _ c (starGreedy_sound _ p) H)
      as [pre [s' [-> [Rn K]]]].
    destruct s'; [|discriminate]. exists [], pre. rewrite app_nil_r. auto. }
  assert (Step : groupsOf p r1 /\ endsWithGroup p r2 ->
                 exists pre s', s = pre ++ s' /\ run p s').
  { intros [G1 E2].
    destruct (rmatch_sound p r1 G1 _ _ _ _ H) as [pre1 [s1 [new [-> [_ K]]]]].
    destruct (IH2 E2 _ _ _ _ K) as [pre2 [s2 [-> Rn]]].
    exists (pre1 ++ pre2), s2. now rewrite app_assoc. }
  destruct r1 as [ | | | | |g| ]; try (now apply Step).
  destruct g as [ | | |q| | | ]; try (now apply Step).
  destruct r2; try (now apply Step).
  now apply (Tail q).
Qed.

Lemma exec_tail p r s c :
  endsWithGroup p r -> exec r s = Some c ->
  exists pre s', s = pre ++ s' /\ run p s'.
Proof.
  intros E H. destruct (exec_sound _ _ _ H) as [pre [s' [-> M]]].
  destruct (rmatch_tail p r E _ _ _ _ M) as [pre2 [s2 [-> Rn]]].
  exists (pre ++ pre2), s2. now rewrite app_assoc.
Qed.

Lemma distancePattern_groups : groupsOf placeChar distancePattern.
Proof. cbv [distancePattern groupsOf]. repeat split; auto. Qed.

Lemma weatherPattern_groups : groupsOf placeChar weatherPattern.
Proof. cbv [weatherPattern groupsOf]. repeat split; auto. Qed.

Lemma literal_groups p cs : groupsOf p (literal cs).
Proof.
  induction cs as [|c [|d cs] IH]; simpl; auto.
Qed.

Lemma distancePattern_tail : endsWithGroup placeChar distancePattern.
Proof.
  unfold distancePattern.
  repeat match goal with
         | |- endsWithGroup _ (Seq (Group (Plus _)) Eoi) => reflexivity
         | |- endsWithGroup _ (Seq _ _) => split
         | |- groupsOf _ (literal _) => apply literal_groups
         | |- groupsOf _ (Alt _ _) => split
         | |- groupsOf _ _ => simpl; auto
         end.
Qed.

Lemma weatherPattern_tail : endsWithGroup placeChar weatherPattern.
Proof.
  unfold weatherPattern.
  repeat match goal with
         | |- endsWithGroup _ (Seq (Group (Plus _)) Eoi) => reflexivity
         | |- endsWithGroup _ (Seq _ _) => split
         | |- groupsOf _ (literal _) => apply literal_groups
         | |- groupsOf _ (Alt _ _) => split
         | |- groupsOf _ _ => simpl; auto
         end.
Qed.


Lemma trimStart_forallb p s : forallb p s = true -> forallb p (trimStart s) = true.
Proof.
  induction s as [|c s IH]; simpl; [auto|].
  intros H. destruct (isWhiteSpace c); [|exact H].
  apply andb_true_iff in H as [_ H]. auto.
Qed.

Lemma forallb_rev {A} (p : A -> bool) s : forallb p (rev s) = forallb p s.
Proof.
  induction s as [|c s IH]; simpl; [reflexivity|].
  rewrite forallb_app, IH. simpl. rewrite andb_true_r. apply andb_comm.
Qed.

Lemma trim_forallb p s : forallb p s = true -> forallb p (trim s) = true.
Proof.
  intros H. unfold trim, trimEnd. rewrite forallb_rev.
  apply trimStart_forallb. rewrite forallb_rev. now apply trimStart_forallb.
Qed.

(** [trimStart] leaves nothing, or a string that starts with a code unit
    that is no white space. *)
Lemma trimStart_head s :
  trimStart s = []
  \/ exists c t, trimStart s = c :: t /\ isWhiteSpace c = false.
Proof.
  induction s as [|c s IH]; simpl; [now left|].
  destruct (isWhiteSpace c) eqn:W; [exact IH|right; eauto].
Qed.

Lemma trimStart_fixed c t :
  isWhiteSpace c = false -> trimStart (c :: t) = c :: t.
Proof. intros W. simpl. now rewrite W. Qed.

Lemma trimStart_idem s : trimStart (trimStart s) = trimStart s.
Proof.
  destruct (trimStart_head s) as [E|[c [t [E W]]]]; rewrite E; [reflexivity|].
  now apply trimStart_fixed.
Qed.

(** [trimStart] keeps the end of a string that ends with a code unit that
    is no white space. *)
Lemma trimStart_snoc s c :
  isWhiteSpace c = false -> exists t, trimStart (s ++ [c]) = t ++ [c].
Proof.
  intros W. induction s as [|a s IH]; simpl.
  - rewrite W. now exists [].
  - destruct (isWhiteSpace a); [exact IH|]. now exists (a :: s).
Qed.

(** A trimmed string is empty, or starts and ends with code units that are
    no white space. *)
Lemma trim_ends s :
  trim s = []
  \/ exists c t,
       trim s = c :: t /\ isWhiteSpace c = false
       /\ isWhiteSpace (last (trim s) 0%N) = false.
Proof.
  unfold trim, trimEnd.
  destruct (trimStart_head s) as [E|[c [t [E W]]]]; rewrite E; [now left|].
  right.
  destruct (trimStart_snoc (rev t) c W) as [u U].
  simpl rev. rewrite U.
  destruct (trimStart_head (rev t ++ [c])) as [Z|[e [v [V We]]]].
  - rewrite U in Z. now destruct u.
  - rewrite U in V. exists c, (rev u).
    split; [now rewrite rev_app_distr|]. split; [exact W|].
    rewrite V. simpl. now rewrite last_last.
Qed.

Lemma trim_idem s : trim (trim s) = trim s.
Proof.
  unfold trim at 1. 
  assert (S : trimStart (trim s) = trim s).
  { destruct (trim_ends s) as [E|[c [t [E [W _]]]]]; rewrite E;
      [reflexivity|now apply trimStart_fixed]. }
  rewrite S. unfold trim, trimEnd. rewrite rev_involutive, trimStart_idem.
  reflexivity.
Qed.

Lemma trimStart_nil_blank s : trimStart s = [] -> forallb isWhiteSpace s = true.
Proof.
  induction s as [|c s IH]; simpl; [auto|].
  destruct (isWhiteSpace c); [auto|discriminate].
Qed.

Lemma trimStart_split s :
  exists w, s = w ++ trimStart s /\ forallb isWhiteSpace w = true.
Proof.
  induction s as [|c s IH]; simpl; [now exists []|].
  destruct (isWhiteSpace c) eqn:W; [|now exists []].
  destruct IH as [w [E F]]. exists (c :: w). simpl. rewrite W, F.
  split; [now f_equal|reflexivity].
Qed.

(** Only white space trims to nothing. *)
Lemma trim_nil_blank s : trim s = [] -> forallb isWhiteSpace s = true.
Proof.
  unfold trim, trimEnd. intros H.
  assert (R : trimStart (rev (trimStart s)) = []).
  { rewrite <- (rev_involutive (trimStart _)). now rewrite H. }
  apply trimStart_nil_blank in R. rewrite forallb_rev in R.
  destruct (trimStart_split s) as [w [E F]]. rewrite E, forallb_app, F, R.
  reflexivity.
Qed.


Lemma placeChar_not_surrogate c :
  placeChar c = true -> ((55296 <=? c) && (c <=? 57343))%N = false.
Proof.
  unfold placeChar, isLetter, isWhiteSpace. intros H.
  destruct (55296 <=? c)%N eqn:A; [|reflexivity].
  destruct (c <=? 57343)%N eqn:B; [|reflexivity].
  apply N.leb_le in A, B.
  repeat match type of H with
         | context [(?a <=? ?b)%N] =>
             destruct (N.leb_spec a b); try lia
         | context [(?a =? ?b)%N] =>
             destruct (N.eqb_spec a b); try lia
         end; simpl in H; try discriminate.
Qed.

Lemma wellFormed_placeChars s : forallb placeChar s = true -> wellFormed s = true.
Proof.
  induction s as [|c s IH]; simpl; [reflexivity|].
  intros H. apply andb_true_iff in H as [Hc Hs].
  pose proof (placeChar_not_surrogate c Hc) as S.
  destruct ((55296 <=? c) && (c <=? 56319))%N eqn:Hi.
  - apply andb_true_iff in Hi as [A B]. apply N.leb_le in A, B.
    rewrite (proj2 (N.leb_le _ _) A) in S.
    assert ((c <=? 57343)%N = true) by (apply N.leb_le; lia).
    rewrite H in S. discriminate.
  - destruct ((56320 <=? c) && (c <=? 57343))%N eqn:Lo; [|auto].
    apply andb_true_iff in Lo as [A B]. apply N.leb_le in A.
    assert ((55296 <=? c)%N = true) by (apply N.leb_le; lia).
    rewrite H, B in S. discriminate.
Qed.

(** A name captured by a pattern and trimmed is made of letters and white
    space, also when the capture is missing. *)
Lemma capture_name p c i :
  Forall (run p) c -> forallb p (trim (nth i c [])) = true.
Proof.
  intros F. apply trim_forallb.
  destruct (nth_in_or_default i c []) as [I|D].
  - rewrite Forall_forall in F. now apply F in I as [_ I].
  - now rewrite D.
Qed.

Lemma exec_distance_nil : exec distancePattern [] = None.
Proof. reflexivity. Qed.

Lemma exec_weather_nil : exec weatherPattern [] = None.
Proof. reflexivity. Qed.

(** The names the distance pattern captures are fit for the geocoder. *)
Lemma distance_names_wellFormed m c i :
  exec distancePattern m = Some c -> wellFormed (trim (nth i c [])) = true.
Proof.
  intros H. apply wellFormed_placeChars, capture_name.
  exact (exec_captures _ _ _ _ distancePattern_groups H).
Qed.

Lemma weather_names_wellFormed m c i :
  exec weatherPattern m = Some c -> wellFormed (trim (nth i c [])) = true.
Proof.
  intros H. apply wellFormed_placeChars, capture_name.
  exact (exec_captures _ _ _ _ weatherPattern_groups H).
Qed.

(** X2.  A message either pattern matches gives captures that are not empty and
    made of ASCII letters and white space only.  Every name the handler
    takes from them, trimmed (also a missing one), is made of such code
    units and is well formed, so that [encodeURIComponent] does not throw
    on it; it may be empty, and is so exactly when the capture is made of
    white space only. *)
Theorem place_names_are_letters_and_spaces m c :
  exec distancePattern m = Some c \/ exec weatherPattern m = Some c ->
  Forall (fun x => x <> [] /\ forallb placeChar x = true) c
  /\ forall i, forallb placeChar (trim (nth i c [])) = true
               /\ wellFormed (trim (nth i c [])) = true
               /\ (trim (nth i c []) = []
                   <-> forallb isWhiteSpace (nth i c []) = true).
Proof.
  intros H.
  assert (F : Forall (run placeChar) c).
  { destruct H as [H|H].
    - exact (exec_captures _ _ _ _ distancePattern_groups H).
    - exact (exec_captures _ _ _ _ weatherPattern_groups H). }
  split; [exact F|]. intros i.
  pose proof (capture_name _ _ i F) as P.
  split; [exact P|]. split; [now apply wellFormed_placeChars|].
  split; [apply trim_nil_blank|apply trim_blank].
Qed.

Lemma place_names_are_letters_and_spaces_witness :
  Forall (fun x => x <> [] /\ forallb placeChar x = true)
         [[32%N]; js "Paris"]
  /\ forall i,
       forallb placeChar (trim (nth i [[32%N]; js "Paris"] [])) = true
       /\ wellFormed (trim (nth i [[32%N]; js "Paris"] [])) = true
       /\ (trim (nth i [[32%N]; js "Paris"] []) = []
           <-> forallb isWhiteSpace (nth i [[32%N]; js "Paris"] []) = true).
Proof.
  apply (place_names_are_letters_and_spaces (js "distance   to Paris")).
  left. vm_compute. reflexivity.
Defined.

(** A first name of white space only is looked up as the empty name. *)
Example blank_name_is_looked_up :
  snd (chat sampleRuntime sampleServices (say "distance   to Paris") [])
  = [GeocodeReq []; GeocodeReq (js "Paris")].
Proof. vm_compute. reflexivity. Qed.

Lemma isLetter_bounds c :
  isLetter c = true <-> (65 <= c <= 90 \/ 97 <= c <= 122)%N.
Proof.
  unfold isLetter. rewrite orb_true_iff, !andb_true_iff, !N.leb_le. tauto.
Qed.

Lemma otherCase_letter c :
  isLetter c = true ->
  isLetter (otherCase c) = true /\ otherCase (otherCase c) = c
  /\ otherCase c <> c.
Proof.
  rewrite !isLetter_bounds. unfold otherCase. intros H.
  destruct (N.ltb_spec c 97).
  - destruct (N.ltb_spec (c + 32) 97); lia.
  - destruct (N.ltb_spec (c - 32) 97); lia.
Qed.

Lemma letter_not_space c : isLetter c = true -> isWhiteSpace c = false.
Proof.
  rewrite isLetter_bounds. intros H. unfold isWhiteSpace.
  assert (E1 : (c <=? 13)%N = false) by (apply N.leb_gt; lia).
  assert (E2 : (8192 <=? c)%N = false) by (apply N.leb_gt; lia).
  assert (E3 : forall k, (122 < k)%N -> (c =? k)%N = false)
    by (intros k K; apply N.eqb_neq; lia).
  assert (E4 : (c =? 32)%N = false) by (apply N.eqb_neq; lia).
  rewrite E1, E2, E4, !E3 by lia. now rewrite andb_false_r.
Qed.

Lemma caseVariant_cases c c' :
  caseVariant c c' = true ->
  c' = c \/ (isLetter c = true /\ c' = otherCase c).
Proof.
  unfold caseVariant. intros H. apply orb_true_iff in H as [H|H].
  - left. now apply N.eqb_eq.
  - right. apply andb_true_iff in H as [L H]. split; [exact L|].
    now apply N.eqb_eq.
Qed.

Lemma isLetter_variant c c' :
  caseVariant c c' = true -> isLetter c' = isLetter c.
Proof.
  intros H. destruct (caseVariant_cases c c' H) as [->|[L ->]];
    [reflexivity|].
  rewrite L. now apply otherCase_letter.
Qed.

Lemma isWhiteSpace_variant c c' :
  caseVariant c c' = true -> isWhiteSpace c' = isWhiteSpace c.
Proof.
  intros H. destruct (caseVariant_cases c c' H) as [->|[L ->]];
    [reflexivity|].
  rewrite (letter_not_space c L). apply letter_not_space.
  now apply otherCase_letter.
Qed.

Lemma placeChar_variant c c' :
  caseVariant c c' = true -> placeChar c' = placeChar c.
Proof.
  intros H. unfold placeChar.
  now rewrite (isLetter_variant c c' H), (isWhiteSpace_variant c c' H).
Qed.

Lemma sameLetter_variant a c c' :
  caseVariant c c' = true -> sameLetter a c' = sameLetter a c.
Proof.
  intros H. destruct (caseVariant_cases c c' H) as [->|[L ->]];
    [reflexivity|].
  destruct (otherCase_letter c L) as [L' [I D]].
  unfold sameLetter. fold (otherCase a).
  destruct (isLetter a) eqn:A.
  - destruct (otherCase_letter a A) as [_ [Ia _]].
    destruct (N.eqb_spec (otherCase c) a) as [E|E];
      destruct (N.eqb_spec c (otherCase a)) as [E'|E'];
      destruct (N.eqb_spec (otherCase c) (otherCase a)) as [F|F];
      destruct (N.eqb_spec c a) as [F'|F']; simpl; try reflexivity;
      exfalso; congruence.
  - destruct (N.eqb_spec (otherCase c) a) as [E|E];
      destruct (N.eqb_spec c a) as [F'|F']; simpl; try reflexivity;
      exfalso; congruence.
Qed.

Lemma literal_caseBlind cs : caseBlind (literal cs).
Proof.
  induction cs as [|c [|c' rest] IH]; simpl.
  - auto.
  - intros x x' H. now apply sameLetter_variant.
  - split; [intros x x' H; now apply sameLetter_variant|exact IH].
Qed.

Lemma distancePattern_caseBlind : caseBlind distancePattern.
Proof.
  unfold distancePattern. simpl caseBlind.
  repeat split;
    intros c c' H;
    first [now apply isWhiteSpace_variant | now apply placeChar_variant
          | now apply sameLetter_variant].
Qed.

Lemma weatherPattern_caseBlind : caseBlind weatherPattern.
Proof.
  unfold weatherPattern. simpl caseBlind.
  repeat split;
    intros c c' H;
    first [now apply isWhiteSpace_variant | now apply placeChar_variant
          | now apply sameLetter_variant].
Qed.

Lemma sameUpToCase_length s : forall s',
  sameUpToCase s s' = true -> length s' = length s.
Proof.
  induction s as [|c s IH]; intros [|c' s'] H; try discriminate;
    [reflexivity|].
  simpl in H. apply andb_true_iff in H as [_ H]. simpl. now rewrite (IH s').
Qed.

Lemma sameUpToCase_firstn n : forall s s',
  sameUpToCase s s' = true -> sameUpToCase (firstn n s) (firstn n s') = true.
Proof.
  induction n as [|n IH]; intros [|c s] [|c' s'] H; try discriminate;
    try reflexivity.
  simpl in H |- *. apply andb_true_iff in H as [V H].
  now rewrite V, (IH s s' H).
Qed.

Lemma sameUpToCase_app s : forall s' t t',
  sameUpToCase s s' = true -> sameUpToCase t t' = true ->
  sameUpToCase (s ++ t) (s' ++ t') = true.
Proof.
  induction s as [|c s IH]; intros [|c' s'] t t' H T; try discriminate;
    [exact T|].
  simpl in H |- *. apply andb_true_iff in H as [V H].
  now rewrite V, (IH s' t t' H T).
Qed.

Lemma sameUpToCase_rev s : forall s',
  sameUpToCase s s' = true -> sameUpToCase (rev s) (rev s') = true.
Proof.
  induction s as [|c s IH]; intros [|c' s'] H; try discriminate;
    [reflexivity|].
  simpl in H |- *. apply andb_true_iff in H as [V H].
  apply sameUpToCase_app; [now apply IH|]. simpl. now rewrite V.
Qed.

Lemma trimStart_variant s : forall s',
  sameUpToCase s s' = true ->
  sameUpToCase (trimStart s) (trimStart s') = true.
Proof.
  induction s as [|c s IH]; intros [|c' s'] H; try discriminate;
    [reflexivity|].
  pose proof H as H0. simpl in H. apply andb_true_iff in H as [V H].
  simpl. rewrite (isWhiteSpace_variant c c' V).
  destruct (isWhiteSpace c); [now apply IH|exact H0].
Qed.

Lemma trim_variant s s' :
  sameUpToCase s s' = true -> sameUpToCase (trim s) (trim s') = true.
Proof.
  intros H. unfold trim, trimEnd.
  now apply sameUpToCase_rev, trimStart_variant, sameUpToCase_rev,
    trimStart_variant.
Qed.

Lemma allAlike_app c : forall c' x x',
  allAlike c c' = true -> sameUpToCase x x' = true ->
  allAlike (c ++ [x]) (c' ++ [x']) = true.
Proof.
  induction c as [|y c IH]; intros [|y' c'] x x' H X; try discriminate.
  - simpl. now rewrite X.
  - simpl in H |- *. apply andb_true_iff in H as [V H].
    now rewrite V, (IH c' x x' H X).
Qed.

Section Quantifiers.
Variable p : N -> bool.
Hypothesis Hp : forall c c', caseVariant c c' = true -> p c' = p c.

Let K := jstring -> option (list jstring).

Lemma starGreedy_alike s : forall s' (k k' : K),
  sameUpToCase s s' = true ->
  (forall s1 s1', sameUpToCase s1 s1' = true ->
                  capturesAlike (k s1) (k' s1') = true) ->
  capturesAlike (starGreedy _ p s k) (starGreedy _ p s' k') = true.
Proof.
  induction s as [|c s IH]; intros [|c' s'] k k' H Hk; try discriminate.
  - simpl. now apply Hk.
  - pose proof H as H0. simpl in H. apply andb_true_iff in H as [V H].
    simpl. rewrite (Hp c c' V).
    destruct (p c); [|now apply Hk].
    pose proof (IH s' k k' H Hk) as R.
    destruct (starGreedy _ p s k), (starGreedy _ p s' k');
      try discriminate; [exact R|now apply Hk].
Qed.

Lemma starLazy_alike s : forall s' (k k' : K),
  sameUpToCase s s' = true ->
  (forall s1 s1', sameUpToCase s1 s1' = true ->
                  capturesAlike (k s1) (k' s1') = true) ->
  capturesAlike (starLazy _ p s k) (starLazy _ p s' k') = true.
Proof.
  induction s as [|c s IH]; intros [|c' s'] k k' H Hk; try discriminate.
  - simpl. pose proof (Hk [] [] eq_refl) as R.
    destruct (k []), (k' []); try discriminate; [exact R|reflexivity].
  - pose proof H as H0. simpl in H. apply andb_true_iff in H as [V H].
    simpl. pose proof (Hk _ _ H0) as R.
    destruct (k (c :: s)), (k' (c' :: s')); try discriminate; [exact R|].
    rewrite (Hp c c' V). destruct (p c); [now apply IH|reflexivity].
Qed.

Lemma plusWith_alike star star' s s' (k k' : K) :
  (forall t t' (j j' : K), sameUpToCase t t' = true ->
     (forall s1 s1', sameUpToCase s1 s1' = true ->
                     capturesAlike (j s1) (j' s1') = true) ->
     capturesAlike (star t j) (star' t' j') = true) ->
  sameUpToCase s s' = true ->
  (forall s1 s1', sameUpToCase s1 s1' = true ->
                  capturesAlike (k s1) (k' s1') = true) ->
  capturesAlike (plusWith _ p star s k) (plusWith _ p star' s' k') = true.
Proof.
  intros Hs H Hk. unfold plusWith.
  destruct s as [|c s], s' as [|c' s']; try discriminate; [reflexivity|].
  simpl in H. apply andb_true_iff in H as [V H].
  rewrite (Hp c c' V). destruct (p c); [now apply Hs|reflexivity].
Qed.
End Quantifiers.

Lemma rmatch_alike r : caseBlind r -> forall s s' caps caps' k k',
  sameUpToCase s s' = true -> allAlike caps caps' = true ->
  (forall s1 s1' c1 c1',
     sameUpToCase s1 s1' = true -> allAlike c1 c1' = true ->
     capturesAlike (k s1 c1) (k' s1' c1') = true) ->
  capturesAlike (rmatch r s caps k) (rmatch r s' caps' k') = true.
Proof.
  induction r as [p|r1 IH1 r2 IH2|r1 IH1 r2 IH2|p|p|r1 IH1|];
    intros B s s' caps caps' k k' H C K; simpl in B |- *.
  - destruct s as [|c s], s' as [|c' s']; try discriminate; [reflexivity|].
    simpl in H. apply andb_true_iff in H as [V H].
    rewrite (B c c' V). destruct (p c); [now apply K|reflexivity].
  - destruct B as [B1 B2]. apply (IH1 B1); [exact H|exact C|].
    intros s1 s1' c1 c1' H1 C1. now apply (IH2 B2).
  - destruct B as [B1 B2].
    pose proof (IH1 B1 s s' caps caps' k k' H C K) as R.
    destruct (rmatch r1 s caps k), (rmatch r1 s' caps' k');
      try discriminate; [exact R|now apply (IH2 B2)].
  - apply plusWith_alike; [exact B| |exact H|].
    + intros t t' j j'. now apply starGreedy_alike.
    + intros s1 s1' H1. now apply K.
  - apply plusWith_alike; [exact B| |exact H|].
    + intros t t' j j'. now apply starLazy_alike.
    + intros s1 s1' H1. now apply K.
  - apply (IH1 B); [exact H|exact C|].
    intros s1 s1' c1 c1' H1 C1. apply K; [exact H1|].
    apply allAlike_app; [exact C1|].
    rewrite (sameUpToCase_length s s' H), (sameUpToCase_length s1 s1' H1).
    now apply sameUpToCase_firstn.
  - destruct s, s'; try discriminate; [now apply K|reflexivity].
Qed.

Lemma exec_alike r : caseBlind r -> forall s s',
  sameUpToCase s s' = true -> capturesAlike (exec r s) (exec r s') = true.
Proof.
  intros B.
  assert (E : forall s s', sameUpToCase s s' = true ->
            capturesAlike (rmatch r s [] (fun _ c => Some c))
                          (rmatch r s' [] (fun _ c => Some c)) = true).
  { intros s s' H. apply (rmatch_alike r B); [exact H|reflexivity|].
    intros s1 s1' c1 c1' _ C1. exact C1. }
  induction s as [|c s IH]; intros [|c' s'] H; try discriminate.
  - pose proof (E [] [] H) as R. simpl.
    destruct (rmatch r [] [] _); [exact R|reflexivity].
  - pose proof (E _ _ H) as R. simpl exec.
    destruct (rmatch r (c :: s) [] _), (rmatch r (c' :: s') [] _);
      try discriminate; [exact R|].
    simpl in H. apply andb_true_iff in H as [_ H]. now apply IH.
Qed.

(** X3.  The two patterns are blind to the case of letters.  When the case of
    ASCII letters of a message is changed, at any of its positions, the
    trimmed messages differ in that way only, each pattern matches the
    one exactly when it matches the other, and the captures are the same
    up to the case of their letters. *)
Theorem intent_patterns_ignore_case s s' :
  sameUpToCase s s' = true ->
  sameUpToCase (trim s) (trim s') = true
  /\ capturesAlike (exec distancePattern s) (exec distancePattern s') = true
  /\ capturesAlike (exec weatherPattern s) (exec weatherPattern s') = true.
Proof.
  intros H. split; [now apply trim_variant|].
  split; apply exec_alike; auto using distancePattern_caseBlind,
    weatherPattern_caseBlind.
Qed.

Lemma intent_patterns_ignore_case_witness :
  sameUpToCase (trim (js "  distance Mumbai to Singapore"))
               (trim (js "  Distance MUMBAI To singapore")) = true
  /\ capturesAlike
       (exec distancePattern (js "  distance Mumbai to Singapore"))
       (exec distancePattern (js "  Distance MUMBAI To singapore")) = true
  /\ capturesAlike
       (exec weatherPattern (js "  distance Mumbai to Singapore"))
       (exec weatherPattern (js "  Distance MUMBAI To singapore")) = true.
Proof.
  apply (intent_patterns_ignore_case (js "  distance Mumbai to Singapore")
           (js "  Distance MUMBAI To singapore")).
  vm_compute. reflexivity.
Defined.

Example mixed_case_request :
  exec distancePattern (js "Distance MUMBAI To singapore")
  = Some [js "MUMBAI"; js "singapore"].
Proof. vm_compute. reflexivity. Qed.

(* ================================================================== *)
(** * 21. Geocoding and the distance flow *)
(* ================================================================== *)

Lemma geocodePlace_spec net n h :
  wellFormed n = true ->
  geocodePlace net n h =
  (match net h (GeocodeReq n) with
   | NoAnswer => Throw FetchRejected
   | Answer r =>
       if ok r then
         match json r with
         | None => Throw BodyRejected
         | Some data => Ret (firstResult data)
         end
       else Ret None
   end, h ++ [GeocodeReq n]).
Proof.
  intros W. unfold geocodePlace, bind, fetch, jsonOf, firstResult.
  rewrite W. simpl.
  destruct (net h _) as [|r]; [reflexivity|].
  destruct (ok r); simpl; [|reflexivity].
  destruct (json r) as [data|]; simpl; [|reflexivity].
  destruct (truthy _); reflexivity.
Qed.

Lemma firstResult_country data p :
  firstResult data = Some p ->
  country p = Str [] \/ truthy (country p) = true.
Proof.
  unfold firstResult. destruct (truthy (optIndex0 _)); [|discriminate].
  intros E. injection E as <-. simpl. unfold orDefault.
  destruct (truthy (get _ (js "country"))) eqn:T; auto.
Qed.

(** X4.  [geocodePlace], for every behaviour of the geocoder.  On a name with a
    lone surrogate it throws a URIError before any request.  On a well
    formed name it makes exactly one request; it throws exactly when the
    request gets no answer or a successful answer cannot be parsed; it
    reports nothing found for a status that is not a success and for an
    answer without a first result; and the country of a place it returns
    is the empty string or a truthy value. *)
Theorem geocodePlace_outcome net n h :
  (wellFormed n = false -> geocodePlace net n h = (Throw URIError, h))
  /\ (wellFormed n = true ->
      snd (geocodePlace net n h) = h ++ [GeocodeReq n]
      /\ ((exists e, fst (geocodePlace net n h) = Throw e) <->
          (net h (GeocodeReq n) = NoAnswer
           \/ exists r, net h (GeocodeReq n) = Answer r
                        /\ ok r = true /\ json r = None))
      /\ (forall r, net h (GeocodeReq n) = Answer r -> ok r = false ->
            fst (geocodePlace net n h) = Ret None)
      /\ (forall r data, net h (GeocodeReq n) = Answer r -> ok r = true ->
            json r = Some data ->
            truthy (optIndex0 (optGet data (js "results"))) = false ->
            fst (geocodePlace net n h) = Ret None)
      /\ (forall p, fst (geocodePlace net n h) = Ret (Some p) ->
            country p = Str [] \/ truthy (country p) = true)).
Proof.
  split.
  - intros W. unfold geocodePlace. now rewrite W.
  - intros W. rewrite (geocodePlace_spec net n h W). simpl.
    split; [reflexivity|]. split; [|split; [|split]].
    + split.
      * intros [e E]. destruct (net h _) as [|r]; [now left|right].
        exists r. destruct (ok r); [|discriminate].
        destruct (json r); [discriminate|]. auto.
      * intros [E|[r [E [O J]]]]; rewrite E; [eauto|].
        rewrite O, J. eauto.
    + intros r E O. now rewrite E, O.
    + intros r data E O J T. rewrite E, O, J. unfold firstResult.
      now rewrite T.
    + intros p. destruct (net h _) as [|r]; [discriminate|].
      destruct (ok r); [|discriminate].
      destruct (json r) as [data|]; [|discriminate].
      intros E. apply Ret_inj in E. now apply (firstResult_country data).
Qed.

Lemma geocodePlace_outcome_witness :
  fst (geocodePlace sampleServices (js "Atlantis") []) = Ret None.
Proof.
  apply (proj1 (proj2 (proj2 (proj2
           (proj2 (geocodePlace_outcome sampleServices (js "Atlantis") [])
                  ltac:(vm_compute; reflexivity)))))
           {| status := 200; text := None; json := Some (Obj []) |}
           (Obj []));
    vm_compute; reflexivity.
Defined.

Lemma geocodePlace_requests net n h :
  wellFormed n = true -> snd (geocodePlace net n h) = h ++ [GeocodeReq n].
Proof. intros W. now rewrite geocodePlace_spec. Qed.

(** The distance flow runs both lookups, whatever comes of the first, and
    answers by their two results. *)
Lemma distanceFlow_spec rt net a b h :
  distanceFlow rt net a b h =
  (Ret (distanceOutcome rt a b
          (fst (geocodePlace net a h))
          (fst (geocodePlace net b (snd (geocodePlace net a h))))),
   snd (geocodePlace net b (snd (geocodePlace net a h)))).
Proof.
  unfold distanceFlow, tryCatch, bind, all2, distanceOutcome.
  destruct (geocodePlace net a h) as [o1 h1]. simpl.
  destruct (geocodePlace net b h1) as [o2 h2]. simpl.
  destruct o1 as [[from|]|e1], o2 as [[to|]|e2]; try reflexivity.
  unfold lift. destruct (distanceReply rt from to); reflexivity.
Qed.

(** X5.  A message the distance pattern matches makes the handler ask the
    geocoder exactly twice, for the first name and then for the second,
    each trimmed, and nothing else: whatever the geocoder answers, also
    when the first name is not found or a lookup fails. *)
Theorem distance_message_asks_geocoder_twice rt net body s c h :
  orDefault (optGet body (js "message")) (Str []) = Str s ->
  exec distancePattern (trim s) = Some c ->
  snd (chat rt net body h)
  = h ++ [GeocodeReq (trim (nth 0 c [])); GeocodeReq (trim (nth 1 c []))].
Proof.
  intros E X.
  assert (N : trim s <> []).
  { intros Z. rewrite Z, exec_distance_nil in X. discriminate. }
  rewrite (chat_routes rt net body s h E N), X, distanceFlow_spec. simpl.
  pose proof (distance_names_wellFormed (trim s) c 0 X) as W0.
  pose proof (distance_names_wellFormed (trim s) c 1 X) as W1.
  rewrite (geocodePlace_requests net _ h W0).
  rewrite (geocodePlace_requests net _ _ W1).
  now rewrite <- app_assoc.
Qed.

Lemma distance_message_asks_geocoder_twice_witness :
  snd (chat sampleRuntime deadServices (say "distance Mumbai to Singapore") [])
  = [] ++ [GeocodeReq (trim (nth 0 [js "Mumbai"; js "Singapore"] []));
           GeocodeReq (trim (nth 1 [js "Mumbai"; js "Singapore"] []))].
Proof.
  apply (distance_message_asks_geocoder_twice sampleRuntime deadServices
           (say "distance Mumbai to Singapore")
           (js "distance Mumbai to Singapore"));
    vm_compute; reflexivity.
Defined.

(** X6.  The distance flow when a place is missing.  When the first name is not
    found the reply names it, unless the lookup of the second throws: then
    the reply is that of the distance service error, since the two lookups
    are awaited together.  When only the second name is not found the
    reply names the second. *)
Theorem distance_not_found rt net a b h h1 h2 o2 p :
  (geocodePlace net a h = (Ret None, h1) ->
   geocodePlace net b h1 = (o2, h2) ->
   distanceFlow rt net a b h
   = (Ret match o2 with
          | Ret _ => notFoundDistance a
          | Throw _ => distanceError
          end, h2))
  /\ (geocodePlace net a h = (Ret (Some p), h1) ->
      geocodePlace net b h1 = (Ret None, h2) ->
      distanceFlow rt net a b h = (Ret (notFoundDistance b), h2)).
Proof.
  split; intros G1 G2; rewrite distanceFlow_spec, G1; simpl; rewrite G2;
    simpl; [now destruct o2|reflexivity].
Qed.

Lemma distance_not_found_witness :
  distanceFlow sampleRuntime sampleServices (js "Atlantis") (js "Mumbai") []
  = (Ret (notFoundDistance (js "Atlantis")),
     [GeocodeReq (js "Atlantis"); GeocodeReq (js "Mumbai")]).
Proof.
  apply (proj1 (distance_not_found sampleRuntime sampleServices
                  (js "Atlantis") (js "Mumbai") []
                  [GeocodeReq (js "Atlantis")]
                  [GeocodeReq (js "Atlantis"); GeocodeReq (js "Mumbai")]
                  (Ret (Some (placeAt (js "Mumbai") (js "India") 19 72.875)))
                  (placeAt (js "Mumbai") (js "India") 19 72.875)));
    vm_compute; reflexivity.
Defined.

(* ================================================================== *)
(** * 22. Messages without a request, and blank ones *)
(* ================================================================== *)

Lemma last_app_nonempty {A} (l1 l2 : list A) d :
  l2 <> [] -> last (l1 ++ l2) d = last l2 d.
Proof.
  intros N. destruct (exists_last N) as [l [a ->]].
  now rewrite app_assoc, !last_last.
Qed.

Lemma forallb_last {A} (p : A -> bool) l d :
  l <> [] -> forallb p l = true -> p (last l d) = true.
Proof.
  intros N F. destruct (exists_last N) as [l' [a ->]].
  rewrite last_last. rewrite forallb_app in F.
  apply andb_true_iff in F as [_ F]. simpl in F. now rewrite andb_true_r in F.
Qed.

(** A message either pattern matches ends with a letter or white space. *)
Lemma matched_message_end r m c :
  endsWithGroup placeChar r -> exec r m = Some c ->
  placeChar (last m 0%N) = true.
Proof.
  intros E H. destruct (exec_tail _ _ _ _ E H) as [pre [s' [-> [N F]]]].
  rewrite last_app_nonempty by exact N. now apply forallb_last.
Qed.

Lemma unmatched s :
  trim s <> [] -> isLetter (last (trim s) 0%N) = false ->
  exec distancePattern (trim s) = None /\ exec weatherPattern (trim s) = None.
Proof.
  intros N L.
  assert (P : placeChar (last (trim s) 0%N) = false).
  { unfold placeChar. rewrite L. simpl.
    destruct (trim_ends s) as [E|[c [t [_ [_ W]]]]]; [contradiction|exact W]. }
  split.
  - destruct (exec distancePattern (trim s)) eqn:X; [|reflexivity].
    rewrite (matched_message_end _ _ _ distancePattern_tail X) in P.
    discriminate.
  - destruct (exec weatherPattern (trim s)) eqn:X; [|reflexivity].
    rewrite (matched_message_end _ _ _ weatherPattern_tail X) in P.
    discriminate.
Qed.

(** X7.  A message that, trimmed, is not empty and does not end with an ASCII
    letter (a question mark, a digit, a full stop at its end) matches
    neither pattern: the reply is the echo of the trimmed message, and no
    request is made. *)
Theorem message_not_ending_in_letter_is_echoed rt net body s h :
  orDefault (optGet body (js "message")) (Str []) = Str s ->
  trim s <> [] ->
  isLetter (last (trim s) 0%N) = false ->
  chat rt net body h = (Ret (echoReply (trim s)), h).
Proof.
  intros E N L. destruct (unmatched s N L) as [D W].
  now rewrite (chat_routes rt net body s h E N), D, W.
Qed.

Lemma message_not_ending_in_letter_is_echoed_witness :
  chat sampleRuntime deadServices (say "weather at Rotterdam?") []
  = (Ret (echoReply (trim (js "weather at Rotterdam?"))), []).
Proof.
  apply (message_not_ending_in_letter_is_echoed sampleRuntime deadServices
           (say "weather at Rotterdam?") (js "weather at Rotterdam?")).
  - vm_compute. reflexivity.
  - vm_compute. discriminate.
  - vm_compute. reflexivity.
Defined.

Lemma starts_app cs s t :
  startsWithOneOf cs s = true -> startsWithOneOf cs (s ++ t) = true.
Proof. destruct s; [discriminate|]. intros H. exact H. Qed.

Ltac head_lit := vm_compute; reflexivity.
Ltac heads := apply starts_app; head_lit.

Lemma distanceError_head : startsWithOneOf replyHeads distanceError = true.
Proof. head_lit. Qed.

Lemma weatherError_head : startsWithOneOf replyHeads weatherError = true.
Proof. head_lit. Qed.

Lemma notFoundDistance_head n :
  startsWithOneOf replyHeads (notFoundDistance n) = true.
Proof. unfold notFoundDistance. heads. Qed.

Lemma notFoundWeather_head n :
  startsWithOneOf replyHeads (notFoundWeather n) = true.
Proof. unfold notFoundWeather. heads. Qed.

Lemma echoReply_head m : startsWithOneOf replyHeads (echoReply m) = true.
Proof. unfold echoReply. heads. Qed.

Lemma distanceReply_head rt from to s :
  distanceReply rt from to = Ret s -> startsWithOneOf replyHeads s = true.
Proof.
  unfold distanceReply.
  destruct (greatCircleNm rt from to) as [nm|]; [|discriminate].
  destruct (placeLine rt from) as [l1|]; [|discriminate].
  destruct (placeLine rt to) as [l2|]; [|discriminate].
  cbn [obind]. intros E. apply Ret_inj in E. subst s. heads.
Qed.

Lemma marineReply_head rt p m s :
  marineReply rt p m = Ret s -> startsWithOneOf replyHeads s = true.
Proof.
  unfold marineReply, marineReport.
  destruct (show rt (name p)) as [n|]; [|discriminate].
  destruct (show rt (country p)) as [c|]; [|discriminate].
  destruct (show rt (time m)) as [t|]; [|discriminate].
  destruct (showOrNa rt (wave m) _) as [wv|]; [|discriminate].
  destruct (showOrNa rt (wind m) _) as [wd|]; [|discriminate].
  destruct (showOrNa rt (waveDir m) _) as [dir|]; [|discriminate].
  destruct (coordinates rt _ _ 2) as [g|]; [|discriminate].
  cbn [obind]. intros E. apply Ret_inj in E. subst s.
  apply starts_app. heads.
Qed.

Lemma landReply_head rt p land s :
  landReply rt p land = Ret s -> startsWithOneOf replyHeads s = true.
Proof.
  unfold landReply.
  destruct (show rt (name p)) as [n|]; [|discriminate].
  destruct (show rt (country p)) as [c|]; [|discriminate].
  destruct (show rt (get land (js "temperature"))) as [te|]; [|discriminate].
  destruct (show rt (get land (js "windspeed"))) as [ws|]; [|discriminate].
  destruct (show rt (get land (js "winddirection"))) as [wd|]; [|discriminate].
  destruct (show rt (get land (js "time"))) as [ti|]; [|discriminate].
  cbn [obind]. intros E. apply Ret_inj in E. subst s. heads.
Qed.

Lemma distanceFlow_head rt net a b h :
  exists s h', distanceFlow rt net a b h = (Ret s, h')
               /\ startsWithOneOf replyHeads s = true.
Proof.
  rewrite distanceFlow_spec. eexists _, _. split; [reflexivity|].
  generalize (fst (geocodePlace net a h)) as o1.
  generalize (fst (geocodePlace net b (snd (geocodePlace net a h)))) as o2.
  intros o2 o1. unfold distanceOutcome.
  destruct o1 as [[from|]|e1]; destruct o2 as [[to|]|e2];
    try apply distanceError_head; try apply notFoundDistance_head.
  destruct (distanceReply rt from to) as [s|] eqn:D;
    [|apply distanceError_head].
  now apply (distanceReply_head rt from to).
Qed.

Lemma landFallback_head rt net p h s h' :
  landFallback rt net p h = (Ret s, h') ->
  startsWithOneOf replyHeads s = true.
Proof.
  unfold landFallback, bind.
  destruct (getLandWeather rt net (lat p) (lon p) h) as [[land|e] h1];
    [|discriminate].
  destruct (truthy land).
  - unfold lift. intros E.
    destruct (landReply rt p land) as [s'|] eqn:L; [|discriminate].
    injection E as <- _. now apply (landReply_head rt p land).
  - unfold ret. intros E. injection E as <- _. head_lit.
Qed.

Lemma weatherFlow_head rt net a h :
  exists s h', weatherFlow rt net a h = (Ret s, h')
               /\ startsWithOneOf replyHeads s = true.
Proof.
  unfold weatherFlow, tryCatch.
  match goal with |- context [match ?m h with _ => _ end] =>
    destruct (m h) as [[s|e] h'] eqn:E end.
  - eexists _, _. split; [reflexivity|].
    unfold bind in E.
    destruct (geocodePlace net a h) as [[[p|]|e0] h0]; [| |discriminate].
    + destruct (getMarineWeatherNear rt net (lat p) (lon p) h0)
        as [[[m|]|e1] h1]; [| |discriminate].
      * destruct (usable m).
        -- unfold lift in E.
           destruct (marineReply rt p m) as [s'|] eqn:R; [|discriminate].
           injection E as <- _. now apply (marineReply_head rt p m).
        -- now apply (landFallback_head rt net p h1 s h').
      * now apply (landFallback_head rt net p h1 s h').
    + unfold ret in E. injection E as <- _. apply notFoundWeather_head.
  - eexists _, _. split; [reflexivity|]. apply weatherError_head.
Qed.

(** The reply to a message that is not blank starts as a reply of a flow or
    the echo does. *)
Lemma chat_reply_head rt net body s h :
  orDefault (optGet body (js "message")) (Str []) = Str s ->
  trim s <> [] ->
  exists reply h', chat rt net body h = (Ret reply, h')
                   /\ startsWithOneOf replyHeads reply = true.
Proof.
  intros E N. rewrite (chat_routes rt net body s h E N).
  destruct (exec distancePattern (trim s)); [apply distanceFlow_head|].
  destruct (exec weatherPattern (trim s)); [apply weatherFlow_head|].
  eexists _, _. split; [reflexivity|]. apply echoReply_head.
Qed.

Lemma prompt_head :
  startsWithOneOf replyHeads (js "Please type a question.") = false.
Proof. vm_compute. reflexivity. Qed.

Lemma chat_prompt rt net body s h :
  orDefault (optGet body (js "message")) (Str []) = Str s ->
  trim s = [] ->
  chat rt net body h = (Ret (js "Please type a question."), h).
Proof.
  intros E T. unfold chat, bind, lift. rewrite E. simpl. now rewrite T.
Qed.

(** X8.  For a body whose message is absent, falsy or a string, the reply is
    ["Please type a question."] exactly when the message is made of white
    space only (or is empty or missing): no reply of a flow and no echo is
    that prompt. *)
Theorem prompt_only_for_blank_messages rt net body s h :
  orDefault (optGet body (js "message")) (Str []) = Str s ->
  (fst (chat rt net body h) = Ret (js "Please type a question.")
   <-> forallb isWhiteSpace s = true).
Proof.
  intros E. split.
  - intros H. apply trim_nil_blank.
    destruct (trim s) as [|c t] eqn:T; [reflexivity|exfalso].
    destruct (chat_reply_head rt net body s h E) as [reply [h' [C S]]].
    + rewrite T. discriminate.
    + rewrite C in H. simpl in H. apply Ret_inj in H. subst reply.
      rewrite prompt_head in S. discriminate.
  - intros B. now rewrite (chat_prompt rt net body s h E (trim_blank s B)).
Qed.

Lemma prompt_only_for_blank_messages_witness :
  fst (chat sampleRuntime deadServices (say "   ") [])
  = Ret (js "Please type a question.")
  <-> forallb isWhiteSpace (js "   ") = true.
Proof.
  apply (prompt_only_for_blank_messages sampleRuntime deadServices
           (say "   ") (js "   ")).
  vm_compute. reflexivity.
Defined.

(* ================================================================== *)
(** * 23. The search, decided by its first reading *)
(* ================================================================== *)

Lemma probe_in_range rt net x y h j :
  probe rt net x y h j <> Ret None -> j < 81.
Proof.
  intros H. rewrite <- (candidates_length x y). apply nth_error_Some.
  intros N. apply H. unfold probe. now rewrite N.
Qed.

Lemma resolver_decided rt net x y h j o :
  (forall i, i < j -> probe rt net x y h i = Ret None) ->
  probe rt net x y h j = o -> o <> Ret None ->
  getMarineWeatherNear rt net (Num x) (Num y) h
  = (o, h ++ probed rt x y (S j)).
Proof.
  intros B Pj N.
  assert (J : j < 81) by (apply (probe_in_range rt net x y h); congruence).
  destruct (resolver_spec rt net x y h) as [k [Hk [Hh [Hb Ho]]]].
  destruct (getMarineWeatherNear rt net (Num x) (Num y) h) as [r h'].
  simpl in *. subst h'.
  assert (D : forall j' r', k = S j' -> probe rt net x y h j' = r' ->
                            r' <> Ret None -> j' = j).
  { intros j' r' -> Pj' N'.
    destruct (Nat.lt_trichotomy j' j) as [L|[E|G]]; [|exact E|].
    - rewrite (B j' L) in Pj'. congruence.
    - rewrite (Hb j) in Pj by lia. congruence. }
  destruct r as [[m|]|e].
  - destruct Ho as [j' [-> Pj']].
    assert (j' = j) by (apply (D j' (Ret (Some m))); [auto|auto|discriminate]).
    subst j'. congruence.
  - destruct Ho as [_ Hall]. rewrite (Hall j J) in Pj. congruence.
  - destruct Ho as [j' [-> Pj']].
    assert (j' = j) by (apply (D j' (Throw e)); [auto|auto|discriminate]).
    subst j'. congruence.
Qed.

Lemma probe_reading rt net x y h j m :
  probe rt net x y h j = Ret (Some m) ->
  exists c, nth_error (candidates x y) j = Some c
            /\ usedLat m = Num (fst c) /\ usedLon m = Num (snd c)
            /\ wave m <> Undefined /\ wind m <> Undefined
            /\ waveDir m <> Undefined.
Proof.
  unfold probe. destruct (nth_error (candidates x y) j) as [c|]; [|discriminate].
  rewrite tryMarine_Num. simpl. intros E. exists c. split; [reflexivity|].
  destruct (net _ _) as [|r]; [discriminate|].
  destruct (ok r); [|discriminate].
  destruct (json r) as [data|]; [|discriminate].
  destruct (noHourly data); [discriminate|].
  apply Ret_inj in E. injection E as <-. simpl.
  repeat split; unfold orElse;
    match goal with |- (if nullish ?v then _ else _) <> _ =>
      destruct v; simpl; discriminate end.
Qed.

(** X9.  When the probes of the candidates before candidate [j] find nothing and
    that of candidate [j] returns a reading, the resolver returns this
    reading after exactly [j + 1] requests, and the reading carries the
    coordinates of candidate [j] as its grid point. *)
Theorem resolver_first_hit rt net x y h j m :
  (forall i, i < j -> probe rt net x y h i = Ret None) ->
  probe rt net x y h j = Ret (Some m) ->
  getMarineWeatherNear rt net (Num x) (Num y) h
  = (Ret (Some m), h ++ probed rt x y (S j))
  /\ exists c, nth_error (candidates x y) j = Some c
               /\ usedLat m = Num (fst c) /\ usedLon m = Num (snd c).
Proof.
  intros B Pj. split.
  - apply (resolver_decided rt net x y h j _ B Pj). discriminate.
  - destruct (probe_reading rt net x y h j m Pj) as [c [C [La [Lo _]]]].
    exists c. auto.
Qed.

Lemma resolver_first_hit_witness :
  getMarineWeatherNear sampleRuntime sampleServices (Num 53.5) (Num 10) []
  = (Ret (Some {| time := Str (js "2025-08-30T00:00");
                  wave := Num 3.5; wind := Num 18; waveDir := Null;
                  usedLat := Num 53.5; usedLon := Num 9.5 |}),
     [] ++ probed sampleRuntime 53.5 10 5)
  /\ exists c, nth_error (candidates 53.5 10) 4 = Some c
               /\ Num 53.5 = Num (fst c) /\ Num 9.5 = Num (snd c).
Proof.
  apply (resolver_first_hit sampleRuntime sampleServices 53.5 10 [] 4
           {| time := Str (js "2025-08-30T00:00");
              wave := Num 3.5; wind := Num 18; waveDir := Null;
              usedLat := Num 53.5; usedLon := Num 9.5 |}).
  - intros i Hi.
    do 4 (destruct i as [|i]; [vm_compute; reflexivity|]). lia.
  - vm_compute. reflexivity.
Defined.

(** X10.  When a probe of the search throws (the marine service does not answer,
    or its body cannot be parsed) after probes that found nothing, the
    weather flow replies with its error message at once: no later
    candidate is probed and the forecast service is not asked. *)
Theorem weather_probe_failure rt net placeName h h1 p x y j e :
  geocodePlace net placeName h = (Ret (Some p), h1) ->
  lat p = Num x -> lon p = Num y ->
  (forall i, i < j -> probe rt net x y h1 i = Ret None) ->
  probe rt net x y h1 j = Throw e ->
  weatherFlow rt net placeName h
  = (Ret weatherError, h1 ++ probed rt x y (S j)).
Proof.
  intros G Hx Hy B Pj.
  assert (R : getMarineWeatherNear rt net (lat p) (lon p) h1
              = (Throw e, h1 ++ probed rt x y (S j))).
  { rewrite Hx, Hy. apply (resolver_decided rt net x y h1 j _ B Pj).
    discriminate. }
  unfold weatherFlow, tryCatch, bind. rewrite G, R. reflexivity.
Qed.

Lemma weather_probe_failure_witness :
  weatherFlow sampleRuntime marineDown (js "Rotterdam") []
  = (Ret weatherError,
     [GeocodeReq (js "Rotterdam")] ++ probed sampleRuntime 52 4.5 1).
Proof.
  apply (weather_probe_failure sampleRuntime marineDown (js "Rotterdam") []
           [GeocodeReq (js "Rotterdam")]
           (placeAt (js "Rotterdam") (js "Netherlands") 52 4.5)
           52 4.5 0 FetchRejected).
  - vm_compute. reflexivity.
  - reflexivity.
  - reflexivity.
  - intros i Hi. lia.
  - vm_compute. reflexivity.
Defined.

(* ================================================================== *)
(** * 24. The land fallback and the replies of the weather flow *)
(* ================================================================== *)

Lemma getLandWeather_Num rt net x y h :
  getLandWeather rt net (Num x) (Num y) h =
  (match net h (landReq rt x y) with
   | NoAnswer => Throw FetchRejected
   | Answer r =>
       if ok r then
         match json r with
         | None => Throw BodyRejected
         | Some data =>
             Ret (orDefault (optGet data (js "current_weather")) Null)
         end
       else Ret Null
   end, h ++ [landReq rt x y]).
Proof.
  unfold getLandWeather, bind, lift, fetch, jsonOf, landReq. simpl.
  destruct (net h _) as [|r]; [reflexivity|].
  destruct (ok r); simpl;
    [|unfold textOrEmpty, tryCatch, textOf; now destruct (text r)].
  destruct (json r); reflexivity.
Qed.

(** X11.  [getLandWeather] at a numeric point, for every behaviour of the forecast
    service: it makes exactly one request; it throws exactly when the
    request gets no answer or a successful answer cannot be parsed; it
    returns [null] for a status that is not a success; and what it returns
    is [null] or a truthy value. *)
Theorem getLandWeather_outcome rt net x y h :
  snd (getLandWeather rt net (Num x) (Num y) h) = h ++ [landReq rt x y]
  /\ ((exists e, fst (getLandWeather rt net (Num x) (Num y) h) = Throw e) <->
      (net h (landReq rt x y) = NoAnswer
       \/ exists r, net h (landReq rt x y) = Answer r
                    /\ ok r = true /\ json r = None))
  /\ (forall r, net h (landReq rt x y) = Answer r -> ok r = false ->
        fst (getLandWeather rt net (Num x) (Num y) h) = Ret Null)
  /\ (forall v, fst (getLandWeather rt net (Num x) (Num y) h) = Ret v ->
        v = Null \/ truthy v = true).
Proof.
  rewrite getLandWeather_Num. simpl. split; [reflexivity|].
  split; [|split].
  - split.
    + intros [e E]. destruct (net h _) as [|r]; [now left|right].
      exists r. destruct (ok r); [|discriminate].
      destruct (json r); [discriminate|]. auto.
    + intros [E|[r [E [O J]]]]; rewrite E; [eauto|].
      rewrite O, J. eauto.
  - intros r E O. now rewrite E, O.
  - intros v. destruct (net h _) as [|r]; [discriminate|].
    destruct (ok r); [|intros E; apply Ret_inj in E; auto].
    destruct (json r) as [data|]; [|discriminate].
    intros E. apply Ret_inj in E. subst v. unfold orDefault.
    destruct (truthy (optGet data (js "current_weather"))) eqn:T; auto.
Qed.

Lemma getLandWeather_outcome_witness :
  fst (getLandWeather sampleRuntime landDown (Num 39) (Num (-94.5)) [])
  = Ret Null.
Proof.
  apply (proj1 (proj2 (proj2
           (getLandWeather_outcome sampleRuntime landDown 39 (-94.5) [])))
           {| status := 503; text := Some (js "error"); json := None |});
    vm_compute; reflexivity.
Defined.

Lemma landFallback_spec rt net p x y h :
  lat p = Num x -> lon p = Num y ->
  tryCatch (landFallback rt net p) (fun _ => ret weatherError) h
  = (Ret (landOutcome rt p (net h (landReq rt x y))), h ++ [landReq rt x y]).
Proof.
  intros Hx Hy. unfold tryCatch, landFallback, bind.
  rewrite Hx, Hy, getLandWeather_Num. unfold landOutcome, bothFailed.
  destruct (net h _) as [|r]; [reflexivity|].
  destruct (ok r); [|reflexivity].
  destruct (json r) as [data|]; [|reflexivity].
  unfold orDefault.
  destruct (truthy (optGet data (js "current_weather"))) eqn:T.
  - rewrite T. unfold lift. now destruct (landReply rt p _).
  - reflexivity.
Qed.

(** X12.  When all 81 probes find nothing, the reply of the weather flow is decided
    by the answer of the forecast service at the place: the land reply for
    an answer with current weather, the message that both services failed
    for one without or with a status that is not a success, and the error
    message of the flow when the service does not answer, its body cannot
    be parsed or a field cannot be rendered. *)
Theorem weather_after_exhausted_search rt net placeName h h1 p x y :
  geocodePlace net placeName h = (Ret (Some p), h1) ->
  lat p = Num x -> lon p = Num y ->
  (forall i, i < 81 -> probe rt net x y h1 i = Ret None) ->
  fst (weatherFlow rt net placeName h)
  = Ret (landOutcome rt p (net (h1 ++ probed rt x y 81) (landReq rt x y))).
Proof.
  intros G Hx Hy Hall.
  pose proof (resolver_exhausted rt net x y h1 Hall) as R.
  rewrite <- Hx, <- Hy in R.
  rewrite (weatherFlow_after_resolver rt net placeName h h1 _ p None G R).
  now rewrite (landFallback_spec rt net p x y _ Hx Hy).
Qed.

Lemma weather_after_exhausted_search_witness :
  fst (weatherFlow sampleRuntime landDown (js "Kansas City") [])
  = Ret (landOutcome sampleRuntime
           (placeAt (js "Kansas City") (js "United States") 39 (-94.5))
           (landDown
              ([GeocodeReq (js "Kansas City")]
               ++ probed sampleRuntime 39 (-94.5) 81)
              (landReq sampleRuntime 39 (-94.5)))).
Proof.
  apply (weather_after_exhausted_search sampleRuntime landDown
           (js "Kansas City") [] [GeocodeReq (js "Kansas City")]
           (placeAt (js "Kansas City") (js "United States") 39 (-94.5))
           39 (-94.5)).
  - vm_compute. reflexivity.
  - reflexivity.
  - reflexivity.
  - intros i Hi.
    do 81 (destruct i as [|i]; [vm_compute; reflexivity|]). lia.
Defined.

(** X13.  The search stops at the first reading, usable or not.  When candidate
    [j] is the first to give a reading, the requests of the weather flow
    are the lookup, the [j + 1] probes and, only when the reading has
    neither wave height nor wind speed, one request to the forecast
    service at the place itself; no later candidate is probed. *)
Theorem weather_after_first_reading rt net placeName h h1 p x y j m :
  geocodePlace net placeName h = (Ret (Some p), h1) ->
  lat p = Num x -> lon p = Num y ->
  (forall i, i < j -> probe rt net x y h1 i = Ret None) ->
  probe rt net x y h1 j = Ret (Some m) ->
  snd (weatherFlow rt net placeName h)
  = h1 ++ probed rt x y (S j)
       ++ (if usable m then [] else [landReq rt x y]).
Proof.
  intros G Hx Hy B Pj.
  assert (R : getMarineWeatherNear rt net (lat p) (lon p) h1
              = (Ret (Some m), h1 ++ probed rt x y (S j))).
  { rewrite Hx, Hy. apply (resolver_decided rt net x y h1 j _ B Pj).
    discriminate. }
  rewrite (weatherFlow_after_resolver rt net placeName h h1 _ p (Some m) G R).
  destruct (usable m).
  - rewrite app_nil_r. unfold tryCatch, lift.
    now destruct (marineReply rt p m).
  - rewrite (landFallback_spec rt net p x y _ Hx Hy). simpl.
    now rewrite <- app_assoc.
Qed.

Lemma weather_after_first_reading_witness :
  snd (weatherFlow sampleRuntime noSamples (js "Rotterdam") [])
  = [GeocodeReq (js "Rotterdam")]
    ++ probed sampleRuntime 52 4.5 1
    ++ (if usable {| time := Str (js "2025-08-30T00:00");
                     wave := Null; wind := Null; waveDir := Null;
                     usedLat := Num 52; usedLon := Num 4.5 |}
        then [] else [landReq sampleRuntime 52 4.5]).
Proof.
  apply (weather_after_first_reading sampleRuntime noSamples (js "Rotterdam")
           [] [GeocodeReq (js "Rotterdam")]
           (placeAt (js "Rotterdam") (js "Netherlands") 52 4.5) 52 4.5 0).
  - vm_compute. reflexivity.
  - reflexivity.
  - reflexivity.
  - intros i Hi. lia.
  - vm_compute. reflexivity.
Defined.

(** X14.  A message that the weather pattern matches (and the distance pattern
    does not), for a place the geocoder does not find: the reply names the
    place as the handler trimmed it, and the lookup is the only request
    made: neither the marine nor the forecast service is asked. *)
Theorem weather_place_not_found rt net body s c h h1 :
  orDefault (optGet body (js "message")) (Str []) = Str s ->
  exec distancePattern (trim s) = None ->
  exec weatherPattern (trim s) = Some c ->
  geocodePlace net (trim (nth 0 c [])) h = (Ret None, h1) ->
  chat rt net body h = (Ret (notFoundWeather (trim (nth 0 c []))), h1)
  /\ h1 = h ++ [GeocodeReq (trim (nth 0 c []))].
Proof.
  intros E D X G.
  assert (N : trim s <> []).
  { intros Z. rewrite Z, exec_weather_nil in X. discriminate. }
  rewrite (chat_routes rt net body s h E N), D, X. split.
  - unfold weatherFlow, tryCatch, bind. now rewrite G.
  - pose proof (weather_names_wellFormed (trim s) c 0 X) as W.
    pose proof (geocodePlace_requests net _ h W) as Q.
    now rewrite G in Q.
Qed.

Lemma weather_place_not_found_witness :
  chat sampleRuntime sampleServices (say "weather at Atlantis") []
  = (Ret (notFoundWeather (trim (nth 0 [js "Atlantis"] []))),
     [GeocodeReq (js "Atlantis")])
  /\ [GeocodeReq (js "Atlantis")]
     = [] ++ [GeocodeReq (trim (nth 0 [js "Atlantis"] []))].
Proof.
  apply (weather_place_not_found sampleRuntime sampleServices
           (say "weather at Atlantis") (js "weather at Atlantis"));
    vm_compute; reflexivity.
Defined.

(* ================================================================== *)
(** * 25. The argument of Math.asin *)
(* ================================================================== *)

(** A square root is NaN or not below zero. *)
Lemma sqrt_not_negative (h : float) :
  is_nan (sqrt h) = true \/ (0 <=? sqrt h)%float = true.
Proof.
  unfold is_nan. rewrite eqb_spec, leb_spec, sqrt_spec.
  change (Prim2SF 0) with (S754_zero false).
  destruct (Prim2SF h) as [s|[|]| |[|] m e]; simpl; auto.
  unfold SF64sqrt, SFsqrt.
  destruct (SFsqrt_core_binary prec emax (Z.pos m) e) as [[mz ez] lz].
  unfold binary_round_aux.
  destruct (shr_fexp prec emax mz ez lz) as [r1 e1].
  destruct (shr_fexp prec emax _ e1 loc_Exact) as [r2 e2].
  destruct (shr_m r2); [right; reflexivity| |left; reflexivity].
  destruct (e2 <=? emax - prec)%Z; right; reflexivity.
Qed.

Lemma SFltb_leb x y : SFltb x y = true -> SFleb x y = true.
Proof. unfold SFltb, SFleb. now destruct (SFcompare x y) as [[| |]|]. Qed.

Lemma SFcompare_antisym x y :
  SFcompare y x = match SFcompare x y with
                  | Some c => Some (CompOpp c)
                  | None => None
                  end.
Proof.
  destruct x as [sx|sx| |sx mx ex], y as [sy|sy| |sy my ey]; simpl;
    try reflexivity;
    try (now destruct sx); try (now destruct sy);
    try (now destruct sx, sy).
  f_equal.
  assert (P : PosDef.Pos.compare_cont Eq my mx
              = CompOpp (PosDef.Pos.compare_cont Eq mx my))
    by (symmetry; apply (Pos.compare_cont_antisym mx my Eq)).
  rewrite P, (Z.compare_antisym ex ey).
  destruct sx, sy; simpl; try reflexivity;
    destruct (ex ?= ey)%Z; simpl; try reflexivity.
Qed.

Lemma SFcompare_total x y :
  SFeqb x x = true -> SFeqb y y = true ->
  SFltb x y = false -> SFltb y x = false ->
  SFleb y x = true.
Proof.
  unfold SFeqb, SFltb, SFleb. rewrite (SFcompare_antisym x y).
  intros X Y.
  assert (C : exists c, SFcompare x y = Some c).
  { destruct x as [sx|sx| |sx mx ex]; [| |discriminate|];
      (destruct y as [sy|sy| |sy my ey]; [| |discriminate|]);
      simpl; eauto. }
  destruct C as [c ->]. now destruct c.
Qed.

Lemma Math_min_clamps (h : float) : inAsinDomain (Math_min 1 (sqrt h)).
Proof.
  unfold inAsinDomain, Math_min.
  destruct (is_nan 1 || is_nan (sqrt h)) eqn:N; [left; reflexivity|].
  apply orb_false_iff in N as [N1 N2]. right.
  destruct (sqrt_not_negative h) as [X|P]; [congruence|].
  destruct (1 <? sqrt h)%float eqn:L1; [split; reflexivity|].
  destruct (sqrt h <? 1)%float eqn:L2.
  - split; [exact P|]. rewrite ltb_spec in L2. rewrite leb_spec.
    now apply SFltb_leb.
  - change (get_sign 1) with false. cbv iota. split; [exact P|].
    unfold is_nan in N1, N2. rewrite eqb_spec in N1, N2.
    rewrite ltb_spec in L1, L2. rewrite leb_spec.
    apply SFcompare_total;
      [now destruct (SFeqb (Prim2SF 1) _)
      |now destruct (SFeqb (Prim2SF (sqrt h)) _)
      |exact L1|exact L2].
Qed.

(** X15.  Whenever [greatCircleNm] returns, its result is
    [2 * 6371 * Math.asin(z) * 0.539957] for a [z] that is NaN or lies
    between 0 and 1: [Math.min(1, Math.sqrt(h))] keeps the argument of
    [Math.asin] in its domain whatever the engine's sine, cosine and power
    return. *)
Theorem asin_argument_in_domain rt a b d :
  greatCircleNm rt a b = Ret d ->
  exists z, d = (2 * 6371 * Math_asin rt z * 0.539957)%float
            /\ inAsinDomain z.
Proof.
  unfold greatCircleNm.
  destruct (minus rt (lat b) (lat a)) as [dlat|]; [|discriminate].
  cbn [obind].
  destruct (toRadians rt dlat) as [dLat|]; [|discriminate]. cbn [obind].
  destruct (minus rt (lon b) (lon a)) as [dlon|]; [|discriminate].
  cbn [obind].
  destruct (toRadians rt dlon) as [dLon|]; [|discriminate]. cbn [obind].
  destruct (toRadians rt (lat a)) as [lat1|]; [|discriminate]. cbn [obind].
  destruct (toRadians rt (lat b)) as [lat2|]; [|discriminate]. cbn [obind].
  intros E. apply Ret_inj in E. subst d.
  eexists. split; [reflexivity|]. apply Math_min_clamps.
Qed.

Lemma asin_argument_in_domain_witness :
  exists z,
    haversineNm sampleRuntime 19 72.875 1.25 103.75
    = (2 * 6371 * Math_asin sampleRuntime z * 0.539957)%float
    /\ inAsinDomain z.
Proof.
  apply (asin_argument_in_domain sampleRuntime
           (placeAt (js "Mumbai") (js "India") 19 72.875)
           (placeAt (js "Singapore") (js "Singapore") 1.25 103.75)).
  apply greatCircleNm_haversine; reflexivity.
Defined.

(* ================================================================== *)
(** * 26. The page *)
(* ================================================================== *)

Lemma jstring_eqb_refl s : jstring_eqb s s = true.
Proof.
  induction s as [|c s IH]; [reflexivity|]. simpl.
  now rewrite N.eqb_refl, IH.
Qed.

Lemma get_only k v : get (Obj [(k, v)]) k = v.
Proof. simpl. now rewrite jstring_eqb_refl. Qed.

Lemma optGet_only k v : optGet (Obj [(k, v)]) k = v.
Proof. unfold optGet. simpl nullish. cbv iota. apply get_only. Qed.

Lemma truthy_Str_cons s : s <> [] -> truthy (Str s) = true.
Proof. destruct s; [congruence|reflexivity]. Qed.

Lemma starts_nonempty cs s : startsWithOneOf cs s = true -> s <> [].
Proof. now destruct s. Qed.

(** What [data?.reply || data?.error || "(no reply)"] is. *)
Lemma reply_truthy a b c :
  truthy c = true -> truthy (orDefault (orDefault a b) c) = true.
Proof.
  intros C. unfold orDefault.
  destruct (truthy a) eqn:A; cbv iota; [now rewrite A|].
  destruct (truthy b) eqn:B; [exact B|exact C].
Qed.

(** X16.  [send] on white space only, typed or dictated, does nothing: no request
    is posted, nothing is spoken, and the state of the page (the input
    included) is as it was. *)
Theorem send_ignores_blank_input net text st s :
  orElse text (Str (input st)) = Str s ->
  forallb isWhiteSpace s = true ->
  send net text st = Ret st.
Proof.
  intros E B. unfold send. rewrite E. simpl. now rewrite (trim_blank s B).
Qed.

Lemma send_ignores_blank_input_witness :
  send sampleBackend (Str (js "   ")) samplePage = Ret samplePage.
Proof.
  apply (send_ignores_blank_input sampleBackend (Str (js "   ")) samplePage
           (js "   ")); vm_compute; reflexivity.
Defined.

Lemma unreachable_reply url :
  orDefault
    (orDefault
       (optGet (Obj [(js "error", Str (js "Cannot reach " ++ url))])
               (js "reply"))
       (optGet (Obj [(js "error", Str (js "Cannot reach " ++ url))])
               (js "error")))
    (Str (js "(no reply)"))
  = Str (js "Cannot reach " ++ url).
Proof.
  rewrite optGet_only.
  unfold optGet, get, lookup. simpl nullish. cbv iota.
  replace (jstring_eqb (js "reply") (js "error")) with false
    by (vm_compute; reflexivity).
  assert (C : exists c t, js "Cannot reach " = c :: t)
    by (vm_compute; eauto).
  destruct C as [c [t ->]]. reflexivity.
Qed.

(** X17.  [send] on a text that is not blank, for every behaviour of the backend:
    exactly one request is posted, to [/chat] under the API base, with the
    trimmed text as its message; the reply is truthy, and is the line
    [Cannot reach ...] when the backend cannot be reached; in chat mode
    the user's text and the reply are appended to the messages, in voice
    mode the messages are unchanged; the reply is spoken in both modes;
    and in the end the page is not busy and the input and the transcript
    are empty. *)
Theorem send_posts_and_shows_reply net text st s :
  orElse text (Str (input st)) = Str s -> trim s <> [] ->
  exists reply st',
    send net text st = Ret st'
    /\ truthy reply = true
    /\ (net (apiBase st ++ js "/chat") (Obj [(js "message", Str (trim s))])
        = None ->
        reply = Str (js "Cannot reach " ++ apiBase st ++ js "/chat"))
    /\ posted st'
       = posted st
         ++ [(apiBase st ++ js "/chat", Obj [(js "message", Str (trim s))])]
    /\ messages st'
       = messages st
         ++ match pageMode st with
            | chatMode => [(user, Str (trim s)); (assistant, reply)]
            | voiceMode => []
            end
    /\ spoken st' = spoken st ++ (if canSpeak st then [reply] else [])
    /\ busy st' = false /\ input st' = [] /\ transcript st' = [].
Proof.
  intros E N. unfold send. rewrite E. simpl obind.
  destruct (trim s) as [|c t] eqn:T; [congruence|]. clear N.
  unfold apiFetch.
  assert (H : truthy (Str (js "(no reply)")) = true)
    by (vm_compute; reflexivity).
  destruct st as [base mo inp tr ms bs cs ps sp]. simpl in E.
  cbn [apiBase pageMode canSpeak posted messages spoken].
  set (body := Obj [(js "message", Str (c :: t))]).
  destruct mo; cbn [setTranscript setInput setBusy setMessages post apiBase
                    pageMode input transcript messages busy canSpeak posted
                    spoken];
    (destruct (net (base ++ js "/chat") body) as [data|] eqn:A;
     cbv beta iota zeta;
     [ set (reply := orDefault (orDefault (optGet data (js "reply"))
                                          (optGet data (js "error")))
                               (Str (js "(no reply)")));
       exists reply; eexists; (split; [reflexivity|]);
       (split; [apply reply_truthy, H|]); (split; [discriminate|])
     | rewrite (unreachable_reply (base ++ js "/chat"));
       exists (Str (js "Cannot reach " ++ base ++ js "/chat"));
       eexists; (split; [reflexivity|]);
       (split; [rewrite <- (unreachable_reply (base ++ js "/chat"));
                apply reply_truthy, H|]);
       (split; [reflexivity|]) ]);
    destruct cs; simpl; rewrite <- ?app_assoc, ?app_nil_r; repeat split.
Qed.

Lemma send_posts_and_shows_reply_witness :
  exists reply st',
    send sampleBackend Undefined samplePage = Ret st'
    /\ truthy reply = true
    /\ (sampleBackend (apiBase samplePage ++ js "/chat")
          (Obj [(js "message", Str (trim (js "  weather at Rotterdam ")))])
        = None ->
        reply = Str (js "Cannot reach " ++ apiBase samplePage ++ js "/chat"))
    /\ posted st'
       = posted samplePage
         ++ [(apiBase samplePage ++ js "/chat",
              Obj [(js "message", Str (trim (js "  weather at Rotterdam ")))])]
    /\ messages st'
       = messages samplePage
         ++ match pageMode samplePage with
            | chatMode =>
                [(user, Str (trim (js "  weather at Rotterdam ")));
                 (assistant, reply)]
            | voiceMode => []
            end
    /\ spoken st'
       = spoken samplePage ++ (if canSpeak samplePage then [reply] else [])
    /\ busy st' = false /\ input st' = [] /\ transcript st' = [].
Proof.
  apply (send_posts_and_shows_reply sampleBackend Undefined samplePage
           (js "  weather at Rotterdam ")).
  - reflexivity.
  - vm_compute. discriminate.
Defined.

Lemma chat_of_page_message rt svc s h :
  trim s <> [] ->
  exists reply h',
    chat rt svc (Obj [(js "message", Str (trim s))]) h = (Ret reply, h')
    /\ startsWithOneOf replyHeads reply = true.
Proof.
  intros N.
  apply (chat_reply_head rt svc _ (trim s) h); [|now rewrite trim_idem].
  rewrite optGet_only. unfold orDefault.
  now rewrite (truthy_Str_cons _ N).
Qed.

(** X18.  The page and the server together.  When the backend of the page is this
    server, [send] on a text that is not blank gets a reply from the
    [POST /chat] handler for every behaviour of the services; the reply is
    not empty and is not the prompt for a blank message; and it is this
    reply that the page shows after the user's text and hands to the
    speech synthesis. *)
Theorem page_shows_reply_of_chat rt svc h net text st s :
  servedBy rt svc h net st ->
  orElse text (Str (input st)) = Str s -> trim s <> [] ->
  exists reply st',
    fst (chat rt svc (Obj [(js "message", Str (trim s))]) h) = Ret reply
    /\ reply <> [] /\ reply <> js "Please type a question."
    /\ send net text st = Ret st'
    /\ messages st'
       = messages st
         ++ match pageMode st with
            | chatMode => [(user, Str (trim s)); (assistant, Str reply)]
            | voiceMode => []
            end
    /\ spoken st' = spoken st ++ (if canSpeak st then [Str reply] else []).
Proof.
  intros S E N.
  destruct (chat_of_page_message rt svc s h N) as [reply [h' [C Hd]]].
  assert (C' : fst (chat rt svc (Obj [(js "message", Str (trim s))]) h)
               = Ret reply) by now rewrite C.
  pose proof (S _ _ C') as A.
  assert (R : reply <> []) by now apply (starts_nonempty replyHeads).
  exists reply.
  unfold send. rewrite E. simpl obind.
  destruct (trim s) as [|c t] eqn:T; [congruence|]. clear N.
  unfold apiFetch.
  destruct st as [base mo inp tr ms bs cs ps sp]. simpl in E, A.
  cbn [apiBase pageMode canSpeak posted messages spoken].
  destruct mo; cbn [setTranscript setInput setBusy setMessages post apiBase
                    pageMode input transcript messages busy canSpeak posted
                    spoken];
    rewrite A; cbv beta iota zeta; rewrite !optGet_only;
    destruct reply as [|r0 rs]; try congruence;
    eexists; (split; [exact C'|]); (split; [exact R|]);
    (split; [intros X; rewrite X, prompt_head in Hd; discriminate|]);
    (split; [reflexivity|]);
    destruct cs; simpl; rewrite <- ?app_assoc, ?app_nil_r; repeat split.
Qed.

Lemma sampleBackend_served :
  servedBy sampleRuntime sampleServices [] sampleBackend samplePage.
Proof.
  intros body reply H. unfold sampleBackend.
  replace (jstring_eqb (apiBase samplePage ++ js "/chat")
             (js "http://localhost:8000/chat")) with true
    by (vm_compute; reflexivity).
  now rewrite H.
Qed.

Lemma page_shows_reply_of_chat_witness :
  exists reply st',
    fst (chat sampleRuntime sampleServices
           (Obj [(js "message", Str (trim (js "  weather at Rotterdam ")))])
           [])
    = Ret reply
    /\ reply <> [] /\ reply <> js "Please type a question."
    /\ send sampleBackend Undefined samplePage = Ret st'
    /\ messages st'
       = messages samplePage
         ++ match pageMode samplePage with
            | chatMode =>
                [(user, Str (trim (js "  weather at Rotterdam ")));
                 (assistant, Str reply)]
            | voiceMode => []
            end
    /\ spoken st'
       = spoken samplePage
         ++ (if canSpeak samplePage then [Str reply] else []).
Proof.
  apply (page_shows_reply_of_chat sampleRuntime sampleServices []
           sampleBackend Undefined samplePage (js "  weather at Rotterdam ")).
  - exact sampleBackend_served.
  - reflexivity.
  - vm_compute. discriminate.
Defined.

Example page_after_send :
  exists st,
    send sampleBackend Undefined samplePage = Ret st
    /\ length (messages st) = 2 /\ length (spoken st) = 1
    /\ busy st = false /\ input st = [].
Proof. eexists. vm_compute. repeat split. Qed.

(* ================================================================== *)
(** * 27. Uploads *)
(* ================================================================== *)

Lemma optGet_second k1 v1 k2 v2 :
  jstring_eqb k2 k1 = false ->
  optGet (Obj [(k1, v1); (k2, v2)]) k2 = v2.
Proof.
  intros D. unfold optGet. simpl. now rewrite D, jstring_eqb_refl.
Qed.

(** X19.  The page and the upload endpoint together.  When the answer to an upload
    of a document is that of [POST /documents/upload], the page shows,
    after the line of the upload, the summary with the size of the file
    in bytes (0 when the stored file cannot be read) when a file arrived,
    and the error [No file uploaded] when none did: the placeholder
    [(No summary)] of the page is never shown for this server. *)
Theorem upload_answer_shown rt net fileName file st :
  net (apiBase st ++ js "/documents/upload") (Obj [(js "file", Str fileName)])
  = Some (snd (documentsUpload rt file)) ->
  messages (handleFile rt net (Some fileName) false st)
  = messages st
    ++ [(user, Str (js "📄 Uploading " ++ fileName ++ js "…"));
        (assistant,
         Str match file with
             | None => js "❌ No file uploaded"
             | Some f =>
                 js "✅ " ++ fileName ++ js " uploaded." ++ nl ++ nl
                 ++ js "Summary:" ++ nl
                 ++ js "Placeholder summary. File size: "
                 ++ NumberToString rt match statSize f with
                                      | Some n => n
                                      | None => 0%float
                                      end
                 ++ js " bytes."
             end)].
Proof.
  intros A. unfold handleFile.
  destruct st as [base mo inp tr ms bs cs ps sp].
  cbn [setMessages post apiBase pageMode input transcript messages busy
       canSpeak posted spoken] in *.
  rewrite A. destruct file as [f|]; cbn [documentsUpload snd].
  - replace (optGet _ (js "error")) with Undefined.
    2:{ unfold optGet, get, lookup. simpl nullish. cbv iota.
        replace (jstring_eqb (js "error") (js "name")) with false
          by (vm_compute; reflexivity).
        replace (jstring_eqb (js "error") (js "summary")) with false
          by (vm_compute; reflexivity).
        reflexivity. }
    cbn [truthy]. cbv iota.
    rewrite optGet_second by (vm_compute; reflexivity).
    unfold orDefault.
    assert (P : exists c t, js "Placeholder summary. File size: " = c :: t)
      by (vm_compute; eauto).
    destruct P as [c [t P]]. rewrite P.
    cbn [truthy app length Nat.eqb negb ToString]. cbv iota.
    cbn [messages setMessages post]. rewrite <- app_assoc. reflexivity.
  - rewrite optGet_only, get_only.
    replace (truthy (Str (js "No file uploaded"))) with true
      by (vm_compute; reflexivity).
    cbn [ToString messages setMessages post]. rewrite <- app_assoc.
    replace (js "❌ No file uploaded") with (js "❌ " ++ js "No file uploaded")
      by (vm_compute; reflexivity).
    reflexivity.
Qed.

Lemma upload_answer_shown_witness :
  messages (handleFile sampleRuntime sampleBackend (Some (js "cp.pdf")) false
              samplePage)
  = messages samplePage
    ++ [(user, Str (js "📄 Uploading " ++ js "cp.pdf" ++ js "…"));
        (assistant,
         Str (js "✅ " ++ js "cp.pdf" ++ js " uploaded." ++ nl ++ nl
              ++ js "Summary:" ++ nl
              ++ js "Placeholder summary. File size: "
              ++ NumberToString sampleRuntime 2048%float
              ++ js " bytes."))].
Proof.
  apply (upload_answer_shown sampleRuntime sampleBackend (js "cp.pdf")
           (Some {| originalname := js "cp.pdf";
                    statSize := Some 2048%float |}) samplePage).
  vm_compute. reflexivity.
Defined.
